(** * ArXiv-Auto-Analyst: the stage store, the source fetcher and the LLM stages

    A shallow embedding of [src/data/storage.ts] and of the three service
    files (fetcher, SiliconFlow filter and analyzer), followed by the
    properties the specification states about them.

    Conventions of the embedding.
    - [localStorage] is an ordered list of entries.  [key i] is the key of the
      i-th entry, [removeItem] deletes an entry and keeps the others in their
      order, [setItem] overwrites the value of an existing key in place and
      puts a new key at the end.  The storage quota is not modelled: [setItem]
      always succeeds.
    - The clock is an input: the functions that read [new Date()] take the
      date string [todayStr] (and [Date.now()]) as arguments.
    - Network collaborators (proxies, the arXiv API, the chat completion
      endpoint) are functions given as parameters; a call that rejects is
      [None].
    - A JavaScript exception is a value of [result]; [try ... catch] is
      [try_catch].
    - The best-effort mirror ([uploadToCloud]) catches its own errors and
      never touches [localStorage]; it is left out. *)

From Stdlib Require Import ZArith QArith String List Lia.
From stdpp Require Import list strings.
From Equations Require Import Equations.
Import ListNotations.
Open Scope string_scope.
Open Scope nat_scope.
Open Scope list_scope.

(* ===================================================================== *)
(** * JavaScript values and exceptions                                    *)
(* ===================================================================== *)

(** What [JSON.parse] returns. Numbers are rationals: the code only ever
    tests them for truthiness and copies them. *)
#[warnings="-register-all"]
Inductive json : Type :=
| JNull
| JBool (b : bool)
| JNum (q : Q)
| JStr (s : string)
| JArr (items : list json)
| JObj (fields : list (string * json)).

(** A JavaScript value read from a property: [None] is [undefined]. *)
Abbreviation jsval := (option json).

Inductive error : Type :=
| MissingApiKey      (* "SiliconFlow API Key is missing..." *)
| ApiError           (* fetch rejected, non-ok status, malformed envelope *)
| SyntaxError        (* JSON.parse *)
| TypeError.         (* property access on null / undefined *)

Inductive result (A : Type) : Type :=
| Ok (a : A)
| Throw (e : error).
Arguments Ok {A} a.
Arguments Throw {A} e.

#[global] Instance result_ret : MRet result := fun A a => Ok a.

(** Sequencing: the first exception aborts what follows. *)
#[global] Instance result_bind : MBind result := fun A B k r =>
  match r with
  | Ok a => k a
  | Throw e => Throw e
  end.

Definition try_catch {A} (body : result A) (handler : error -> result A) : result A :=
  match body with
  | Ok a => Ok a
  | Throw e => handler e
  end.

Definition is_Throw {A} (r : result A) : Prop :=
  match r with
  | Ok _ => False
  | Throw _ => True
  end.

(** [!!v] of JavaScript. *)
Definition truthy (v : jsval) : bool :=
  match v with
  | None => false
  | Some JNull => false
  | Some (JBool b) => b
  | Some (JNum q) => negb (Qeq_bool q 0)
  | Some (JStr s) => negb (String.eqb s "")
  | Some (JArr _) => true
  | Some (JObj _) => true
  end.

Fixpoint assoc (name : string) (fields : list (string * json)) : jsval :=
  match fields with
  | [] => None
  | (k, v) :: rest => if String.eqb k name then Some v else assoc name rest
  end.

(** [v.name]: a [TypeError] on [null], the field of an object, [undefined]
    on every other value (no own property of that name is ever read from an
    array, a string, a number or a boolean by the code below). *)
Definition get_prop (v : json) (name : string) : result jsval :=
  match v with
  | JNull => Throw TypeError
  | JObj fields => Ok (assoc name fields)
  | _ => Ok None
  end.

(* ===================================================================== *)
(** * Records of [types.ts]                                               *)
(* ===================================================================== *)

Record ArxivPaper : Type := {
  id : string;
  title : string;
  summary : string;
  authors : list string;
  published : string;
  link : string;
  categories : list string;
  comment : option string
}.

(** [AnalyzedPaper extends ArxivPaper]. The added fields hold whatever
    value the model's JSON carried (TypeScript's types are erased at run
    time), so they are [jsval]s; the three analysis fields are optional. *)
Record AnalyzedPaper : Type := {
  base : ArxivPaper;
  relevanceScore : jsval;
  tags : json;
  hasCode : jsval;
  isAccepted : jsval;
  reasoning : jsval;
  innovations : jsval;
  methodology : jsval;
  value : jsval
}.

(* ===================================================================== *)
(** * [localStorage]                                                      *)
(* ===================================================================== *)

(** The strings the program stores, by what [JSON.parse] makes of them:
    the three snapshot objects, the manifest array, and text that is not
    JSON (the settings keys of the UI hold such text). *)
Inductive stored : Type :=
| SRaw (date : string) (papers : list ArxivPaper)
| SFiltered (date : string) (papers : list AnalyzedPaper)
| SReport (date : string) (timestamp : Z) (papers : list AnalyzedPaper)
| SManifest (dates : list string)
| SText (text : string).

Abbreviation Storage := (list (string * stored)).

Fixpoint getItem (k : string) (ls : Storage) : option stored :=
  match ls with
  | [] => None
  | (k', v) :: rest => if String.eqb k' k then Some v else getItem k rest
  end.

Fixpoint setItem (k : string) (v : stored) (ls : Storage) : Storage :=
  match ls with
  | [] => [(k, v)]
  | (k', v') :: rest =>
      if String.eqb k' k then (k', v) :: rest else (k', v') :: setItem k v rest
  end.

Fixpoint removeItem (k : string) (ls : Storage) : Storage :=
  match ls with
  | [] => []
  | (k', v') :: rest =>
      if String.eqb k' k then removeItem k rest else (k', v') :: removeItem k rest
  end.

(** [localStorage.key(i)] *)
Definition key (i : nat) (ls : Storage) : option string :=
  match nth_error ls i with
  | Some (k, _) => Some k
  | None => None
  end.

Definition keys (ls : Storage) : list string := map fst ls.

(** [key.startsWith(dirPrefix)] *)
Definition startsWith (s dirPrefix : string) : bool := String.prefix dirPrefix s.

(* ===================================================================== *)
(** * [StorageService] ([src/data/storage.ts])                            *)
(* ===================================================================== *)

Definition PATH_RAW_DIR : string := "data/raw/".
Definition PATH_FILTERED_DIR : string := "data/filtered/".
Definition PATH_REPORTS_DIR : string := "data/reports/".
Definition PATH_MANIFEST : string := "data/reports/manifest.json".

Definition getRawPath (date : string) : string := PATH_RAW_DIR +:+ date +:+ ".json".
Definition getFilteredPath (date : string) : string := PATH_FILTERED_DIR +:+ date +:+ ".json".
Definition getReportPath (date : string) : string := PATH_REPORTS_DIR +:+ date +:+ ".json".

(** The test of [cleanupDirectory]:
    [key && key.startsWith(dirPrefix) && key !== currentFile]. *)
Definition is_stale (dirPrefix currentFile k : string) : bool :=
  negb (String.eqb k "") && startsWith k dirPrefix && negb (String.eqb k currentFile).

(** The loop of [cleanupDirectory]:
    [for (let i = 0; i < localStorage.length; i++)], with [localStorage.length]
    read again at every test and the index advanced after a removal too.
    [fuel] bounds the number of iterations; [None] is fuel exhausted. *)
Fixpoint cleanup_loop (fuel : nat) (dirPrefix currentFile : string)
    (i : nat) (ls : Storage) : option Storage :=
  match fuel with
  | 0 => None
  | S fuel' =>
      if i <? length ls then
        match key i ls with
        | Some k =>
            if is_stale dirPrefix currentFile k
            then cleanup_loop fuel' dirPrefix currentFile (S i) (removeItem k ls)
            else cleanup_loop fuel' dirPrefix currentFile (S i) ls
        | None => cleanup_loop fuel' dirPrefix currentFile (S i) ls
        end
      else Some ls
  end.

(** The loop runs at most [length ls] times ([cleanup_loop_total] below), so
    the default is never used. *)
Definition cleanupDirectory (dirPrefix currentFile : string) (ls : Storage) : Storage :=
  match cleanup_loop (S (length ls)) dirPrefix currentFile 0 ls with
  | Some ls' => ls'
  | None => ls
  end.

Definition saveRawData (todayStr : string) (papers : list ArxivPaper)
    (ls : Storage) : Storage :=
  let filePath := getRawPath todayStr in
  let ls1 := setItem filePath (SRaw todayStr papers) ls in
  cleanupDirectory PATH_RAW_DIR filePath ls1.

Definition saveFilteredData (todayStr : string) (papers : list AnalyzedPaper)
    (ls : Storage) : Storage :=
  let filePath := getFilteredPath todayStr in
  let ls1 := setItem filePath (SFiltered todayStr papers) ls in
  cleanupDirectory PATH_FILTERED_DIR filePath ls1.

(** [getManifest]: [json ? JSON.parse(json) : []] inside a [try] whose
    [catch] returns [[]].  [Some dates] is an array; [None] is a parsed value
    that is not an array (a snapshot object stored under the manifest key). *)
Definition getManifest (ls : Storage) : option (list string) :=
  match getItem PATH_MANIFEST ls with
  | None => Some []
  | Some (SManifest dates) => Some dates
  | Some (SText _) => Some []
  | Some _ => None
  end.

(** [toRemove.forEach(date => localStorage.removeItem(getReportPath(date)))] *)
Definition removeReports (toRemove : list string) (ls : Storage) : Storage :=
  fold_left (fun s date => removeItem (getReportPath date) s) toRemove ls.

Definition saveReport (todayStr : string) (now : Z) (papers : list AnalyzedPaper)
    (ls : Storage) : Storage :=
  let filePath := getReportPath todayStr in
  (* 1. write the report file *)
  let ls1 := setItem filePath (SReport todayStr now papers) ls in
  (* 2. update the manifest *)
  match getManifest ls1 with
  | None => ls1 (* manifest.includes is not a function: caught by the outer catch *)
  | Some manifest0 =>
      let '(manifest, ls2) :=
        if bool_decide (todayStr ∈ manifest0)
        then (manifest0, ls1)
        else (todayStr :: manifest0,
              setItem PATH_MANIFEST (SManifest (todayStr :: manifest0)) ls1) in
      (* 3. cleanup old files *)
      if 7 <? length manifest then
        let toRemove := drop 7 manifest in
        let toKeep := take 7 manifest in
        setItem PATH_MANIFEST (SManifest toKeep) (removeReports toRemove ls2)
      else ls2
  end.

(** A run of report commits, one per element: date, [Date.now()], papers. *)
Definition saveReports (calls : list (string * Z * list AnalyzedPaper))
    (ls : Storage) : Storage :=
  fold_left (fun s c => saveReport c.1.1 c.1.2 c.2 s) calls ls.

(** What the loop of [cleanupDirectory] computes on the entries from index
    [i] on ([cleanup_loop_sweep] below): after a removal the entries move up
    by one while the index still advances, so the entry that followed the
    removed one is never tested. *)
Fixpoint sweep (dirPrefix currentFile : string) (entries : Storage) : Storage :=
  match entries with
  | [] => []
  | (k, v) :: rest =>
      if is_stale dirPrefix currentFile k then
        match rest with
        | [] => []
        | untested :: rest' => untested :: sweep dirPrefix currentFile rest'
        end
      else (k, v) :: sweep dirPrefix currentFile rest
  end.

(** The files of a directory. *)
Definition inDirectory (dirPrefix : string) (ls : Storage) : list string :=
  filter (fun k => startsWith k dirPrefix = true) (keys ls).


(* ===================================================================== *)
(** * Source fetcher ([fetchLatestPapers], [fetchPapersFallback])         *)
(* ===================================================================== *)

(** [xs.slice(a, b)] for [a <= b]. *)
Definition slice {A} (a b : nat) (xs : list A) : list A := take (b - a) (drop a xs).

(** [new Set(xs)] keeps the first occurrence of each element, in insertion
    order; [Array.from] lists it in that order. *)
Definition Set_add (s : list string) (x : string) : list string :=
  if bool_decide (x ∈ s) then s else s ++ [x].

Definition Set_from (xs : list string) : list string := fold_left Set_add xs [].

(** [new Map(entries)]: a later entry with a known key replaces the value in
    place, a new key goes to the end; [.values()] lists the values in key
    order. *)
Fixpoint Map_set {V} (k : string) (v : V) (m : list (string * V)) : list (string * V) :=
  match m with
  | [] => [(k, v)]
  | (k', v') :: rest =>
      if String.eqb k' k then (k', v) :: rest else (k', v') :: Map_set k v rest
  end.

Definition Map_from {V} (entries : list (string * V)) : list (string * V) :=
  fold_left (fun m e => Map_set e.1 e.2 m) entries [].

Definition Map_values {V} (m : list (string * V)) : list V := map snd m.

(** A [Date] object is its time value in milliseconds; [None] is the
    [NaN] of an Invalid Date. *)
Abbreviation Date := (option Z).

Definition msPerDay : Z := 1000 * 3600 * 24.

(** The state of the fallback loop: its three mutable locals, and the
    offsets requested so far (one per "Fetching fallback batch" line).
    [newestPaperDate] is [Date | null]. *)
Record FallbackState : Type := {
  allPapers : list ArxivPaper;
  newestPaperDate : option Date;
  timeWindowDays : Q;
  requested : list nat
}.

Definition totalToFetch : nat := 1000.
Definition batchSize : nat := 100.
Definition chunkSize : nat := 40.

(** The values [start] takes in
    [for (let start = 0; start < totalToFetch; start += batchSize)]. *)
Definition page_starts : list nat :=
  filter (fun start => start < totalToFetch)
         (map (fun k => k * batchSize) (seq 0 (S (totalToFetch / batchSize)))).

Definition listUrls : list string :=
  ["https://arxiv.org/list/cs.AI/new"; "https://arxiv.org/list/cs.CV/new"].

(** The records of a page up to the first one that satisfies [stop]. *)
Fixpoint accepted_prefix {A} (stop : A -> bool) (xs : list A) : list A :=
  match xs with
  | [] => []
  | x :: rest => if stop x then [] else x :: accepted_prefix stop rest
  end.

Section Fetcher.

(** The collaborators.
    - [scrape url]: the captures [match[1]] of the [/abs/] pattern over the
      page that [fetchWithProxies url] returned, in order of appearance;
      [None] when every proxy failed.
    - [query_by_id chunk]: the records [parseArxivXML] reads from the answer
      to the id_list request for [chunk]; [None] when the request failed.
    - [query_recent start]: the same for the page of the date-sorted search
      at offset [start].
    - [Date_parse s]: the time value of [new Date(s)].
    - [LocalTZA t]: the offset of local time at [t], in milliseconds. *)
Variable scrape : string -> option (list string).
Variable query_by_id : list string -> option (list ArxivPaper).
Variable query_recent : nat -> option (list ArxivPaper).
Variable Date_parse : string -> Date.
Variable LocalTZA : Z -> Z.

Definition extractIdsFromHtml (captures : list string) : list string :=
  Set_from captures.

(** [d.getDay()]: 0 = Sunday ... 6 = Saturday, in local time; [NaN] for an
    Invalid Date. 1970-01-01 was a Thursday. *)
Definition getDay (d : Date) : option Z :=
  match d with
  | Some t => Some (((t + LocalTZA t) / msPerDay + 4) mod 7)%Z
  | None => None
  end.

(** The adaptive weekend logic, run once: when no anchor is set and the
    page has a first record. *)
Definition adaptWindow (st : FallbackState) (papers : list ArxivPaper) : FallbackState :=
  match newestPaperDate st, papers with
  | None, paper0 :: _ =>
      let newest := Date_parse (published paper0) in
      let dayOfWeek := getDay newest in
      {| allPapers := allPapers st;
         newestPaperDate := Some newest;
         timeWindowDays :=
           match dayOfWeek with
           | Some 1%Z => 4.0%Q
           | _ => 1.2%Q
           end;
         requested := requested st |}
  | _, _ => st
  end.

(** [diffTime / (1000 * 3600 * 24)]; [NaN] when either date is invalid.
    Time values are integers, so the quotient is compared exactly: rounding
    the quotient and the constants 1.2 and 4.0 to doubles does not change
    the outcome of [diffDays > timeWindowDays]. *)
Definition diffDays (newest paperDate : Date) : option Q :=
  match newest, paperDate with
  | Some t1, Some t2 => Some (inject_Z (t1 - t2) / inject_Z msPerDay)%Q
  | _, _ => None
  end.

(** [diffDays > timeWindowDays]; every comparison with [NaN] is false. *)
Definition exceeds (d : option Q) (window : Q) : bool :=
  match d with
  | Some q => negb (Qle_bool q window)
  | None => false
  end.

(** [for (const paper of papers)]: returns [relevantPapers], [stopFetching]
    and the anchor. *)
Fixpoint walk (newest : option Date) (window : Q) (papers : list ArxivPaper)
    : list ArxivPaper * bool * option Date :=
  match papers with
  | [] => ([], false, newest)
  | paper :: rest =>
      let paperDate := Date_parse (published paper) in
      let newest' := match newest with None => paperDate | Some d => d end in
      if exceeds (diffDays newest' paperDate) window
      then ([], true, Some newest')
      else
        let '(relevantPapers, stopFetching, newest'') := walk (Some newest') window rest in
        (paper :: relevantPapers, stopFetching, newest'')
  end.

(** The body of the [try] for one fetched page. *)
Definition page_step (st : FallbackState) (papers : list ArxivPaper)
    : FallbackState * bool :=
  let st1 := adaptWindow st papers in
  let '(relevantPapers, stopFetching, newest) :=
    walk (newestPaperDate st1) (timeWindowDays st1) papers in
  ({| allPapers := allPapers st1 ++ relevantPapers;
      newestPaperDate := newest;
      timeWindowDays := timeWindowDays st1;
      requested := requested st1 |}, stopFetching).

Definition request (start : nat) (st : FallbackState) : FallbackState :=
  {| allPapers := allPapers st;
     newestPaperDate := newestPaperDate st;
     timeWindowDays := timeWindowDays st;
     requested := requested st ++ [start] |}.

(** The paging loop, over the offsets still to visit. *)
Fixpoint fallback_loop (starts : list nat) (st : FallbackState) : FallbackState :=
  match starts with
  | [] => st
  | start :: later =>
      let st := request start st in
      match query_recent start with
      | None => fallback_loop later st          (* catch: warn, next offset *)
      | Some [] => st                           (* no more papers: break *)
      | Some papers =>
          let '(st', stopFetching) := page_step st papers in
          if stopFetching then st' else fallback_loop later st'
      end
  end.

(** The first page the loop gets an answer for. *)
Fixpoint first_page (starts : list nat) : option (list ArxivPaper) :=
  match starts with
  | [] => None
  | start :: later =>
      match query_recent start with
      | Some papers => Some papers
      | None => first_page later
      end
  end.

(** Whether a record is too old for the anchor and the window. *)
Definition too_old (anchor : Date) (window : Q) (paper : ArxivPaper) : bool :=
  exceeds (diffDays anchor (Date_parse (published paper))) window.

(** [diffDays <= timeWindowDays]; false when [diffDays] is [NaN]. *)
Definition within (d : option Q) (window : Q) : bool :=
  match d with
  | Some q => Qle_bool q window
  | None => false
  end.

(** The anchor a page is judged against: the one already set, or else the
    timestamp of the first record of the page. *)
Definition anchor_for (st : FallbackState) (paper0 : ArxivPaper) : Date :=
  match newestPaperDate st with
  | Some anchor => anchor
  | None => Date_parse (published paper0)
  end.

Definition fallback_init : FallbackState :=
  {| allPapers := []; newestPaperDate := None; timeWindowDays := 1.2%Q; requested := [] |}.

Definition fetchPapersFallback : list ArxivPaper :=
  let st := fallback_loop page_starts fallback_init in
  Map_values (Map_from (map (fun item => (id item, item)) (allPapers st))).

(** The loop over chunks of [chunkSize] identifiers; a failed request adds
    nothing. *)
Equations? fetch_chunks (uniqueIds : list string) (i : nat)
    (chunkedPapers : list ArxivPaper) : list ArxivPaper
    by wf (length uniqueIds - i) lt :=
fetch_chunks uniqueIds i chunkedPapers with decide (i < length uniqueIds) := {
  | left _ =>
      match query_by_id (slice i (i + chunkSize) uniqueIds) with
      | Some papers => fetch_chunks uniqueIds (i + chunkSize) (chunkedPapers ++ papers)
      | None => fetch_chunks uniqueIds (i + chunkSize) chunkedPapers
      end
  | right _ => chunkedPapers }.
Proof. all: unfold chunkSize; lia. Qed.

(** [.catch(err => [])] on each scrape. *)
Definition scrapeIds (url : string) : list string :=
  match scrape url with
  | Some captures => extractIdsFromHtml captures
  | None => []
  end.

(** Every rejection inside the [try] is handled where it occurs (the
    [.catch] of each scrape, the [try] around each chunk), so the outer
    [catch], which would run the fallback too, is never entered. *)
Definition fetchLatestPapers : list ArxivPaper :=
  let idLists := map scrapeIds listUrls in
  let uniqueIds := Set_from (concat idLists) in
  if length uniqueIds =? 0 then fetchPapersFallback
  else fetch_chunks uniqueIds 0 [].

End Fetcher.

(* ===================================================================== *)
(** * Relevance filter and deep analyzer (SiliconFlow service)            *)
(* ===================================================================== *)

(** What a request carries besides the fixed system prompt: the condensed
    records [{id, title, abstract, comment}] of a batch, or the title and
    abstract of one paper. *)
Inductive prompt : Type :=
| ScorePrompt (paperSummaries : list (string * string * string * string))
| AnalyzePrompt (paperTitle paperSummary : string).

Definition BATCH_SIZE : nat := 50.

(** The batches of the chunk loop of the filter, each with its start index:
    [papers.slice(i, i + BATCH_SIZE)] for [i], [i + BATCH_SIZE], ... as long
    as the index is below [papers.length]. *)
Equations? batches_from (papers : list ArxivPaper) (i : nat)
    : list (nat * list ArxivPaper) by wf (length papers - i) lt :=
batches_from papers i with decide (i < length papers) := {
  | left _ => (i, slice i (i + BATCH_SIZE) papers) :: batches_from papers (i + BATCH_SIZE)
  | right _ => [] }.
Proof. unfold BATCH_SIZE. lia. Qed.

Section SiliconFlow.

(** The collaborators.
    - [completion n apiKey model p]: the text
      [data.choices[0]?.message?.content || ""] of the answer to the [n]-th
      request site (the start index of a batch, the position of a paper);
      [None] when [fetch] rejects, the status is not ok or the envelope is
      malformed.
    - [cleanJsonOutput]: strips a Markdown code fence.
    - [JSON_parse]: [None] is a [SyntaxError]. *)
Variable completion : nat -> string -> string -> prompt -> option string.
Variable cleanJsonOutput : string -> string.
Variable JSON_parse : string -> option json.

Definition callSiliconFlow (n : nat) (apiKey model : string) (p : prompt)
    : result string :=
  if String.eqb apiKey "" then Throw MissingApiKey
  else match completion n apiKey model p with
       | Some content => Ok content
       | None => Throw ApiError
       end.

Definition parse (text : string) : result json :=
  match JSON_parse text with
  | Some v => Ok v
  | None => Throw SyntaxError
  end.

(** [p.id === v] *)
Definition id_is (v : jsval) (p : ArxivPaper) : bool :=
  match v with
  | Some (JStr s) => String.eqb (id p) s
  | _ => false
  end.

(** The callback of [results.map]: [null] when no paper of the batch has
    the identifier of the score object. *)
Definition reconcile (batch : list ArxivPaper) (res : json)
    : result (option AnalyzedPaper) :=
  res_id ← get_prop res "id";
  match List.find (id_is res_id) batch with
  | None => Ok None
  | Some original =>
      score ← get_prop res "relevanceScore";
      code ← get_prop res "hasCode";
      accepted ← get_prop res "isAccepted";
      res_tags ← get_prop res "tags";
      why ← get_prop res "reasoning";
      Ok (Some {| base := original;
                  relevanceScore := score;
                  hasCode := code;
                  isAccepted := accepted;
                  tags := match res_tags with
                          | Some t => if truthy res_tags then t else JArr []
                          | None => JArr []
                          end;
                  reasoning := why;
                  innovations := None;
                  methodology := None;
                  value := None |})
  end.

(** [.filter(p => p !== null)] *)
Definition nonNull {A} (xs : list (option A)) : list A := omap (fun x => x) xs.

(** The body of the [try] of [processBatch]. *)
Definition score_batch (apiKey modelId : string) (batch : list ArxivPaper)
    (startIndex : nat) : result (list AnalyzedPaper) :=
  let paperSummaries :=
    map (fun p => (id p, title p, summary p, default "" (comment p))) batch in
  content ← callSiliconFlow startIndex apiKey modelId (ScorePrompt paperSummaries);
  parsed ← parse (cleanJsonOutput content);
  parsed_papers ← get_prop parsed "papers";
  let results :=
    match parsed_papers with
    | Some v => if truthy parsed_papers then v else parsed
    | None => parsed
    end in
  match results with
  | JArr items =>
      mapped ← mapM (reconcile batch) items;
      Ok (nonNull mapped)
  | _ => Ok []
  end.

Definition processBatch (apiKey modelId : string) (batch : list ArxivPaper)
    (startIndex : nat) : result (list AnalyzedPaper) :=
  try_catch (score_batch apiKey modelId batch startIndex) (fun _ => Ok []).

(** What a batch contributes to the result: the records its [try] yields,
    none when it raises. *)
Definition batch_records (apiKey modelId : string) (b : nat * list ArxivPaper)
    : list AnalyzedPaper :=
  match score_batch apiKey modelId b.2 b.1 with
  | Ok scored => scored
  | Throw _ => []
  end.

(** The chunk loop; a batch is awaited before the next one starts. *)
Equations? filter_loop (apiKey modelId : string) (papers : list ArxivPaper)
    (i : nat) (allFilteredPapers : list AnalyzedPaper)
    : result (list AnalyzedPaper) by wf (length papers - i) lt :=
filter_loop apiKey modelId papers i allFilteredPapers with decide (i < length papers) := {
  | left _ =>
      batchResults ← processBatch apiKey modelId (slice i (i + BATCH_SIZE) papers) i;
      filter_loop apiKey modelId papers (i + BATCH_SIZE) (allFilteredPapers ++ batchResults)
  | right _ => Ok allFilteredPapers }.
Proof. all: unfold BATCH_SIZE; lia. Qed.

Definition filterPapersWithLLM (papers : list ArxivPaper) (apiKey modelId : string)
    : result (list AnalyzedPaper) :=
  filter_loop apiKey modelId papers 0 [].

(** The body of the [try] of [analyzeSingle], for the paper at position
    [n]. A per-item failure is an exception raised here. *)
Definition analyze_paper (apiKey modelId : string) (n : nat) (paper : AnalyzedPaper)
    : result AnalyzedPaper :=
  content ← callSiliconFlow n apiKey modelId
              (AnalyzePrompt (title (base paper)) (summary (base paper)));
  analysis ← parse (cleanJsonOutput content);
  inn ← get_prop analysis "innovations";
  meth ← get_prop analysis "methodology";
  val ← get_prop analysis "value";
  Ok {| base := base paper;
        relevanceScore := relevanceScore paper;
        hasCode := hasCode paper;
        isAccepted := isAccepted paper;
        tags := tags paper;
        reasoning := reasoning paper;
        innovations := inn;
        methodology := meth;
        value := val |}.

Definition analyzeSingle (apiKey modelId : string) (n : nat) (paper : AnalyzedPaper)
    : result AnalyzedPaper :=
  try_catch (analyze_paper apiKey modelId n paper) (fun _ => Ok paper).

(** [Promise.all(papers.map(analyzeSingle))]: the results in the order of
    the input, or the first rejection. The calls share no state, so the
    order in which they complete does not matter. *)
Fixpoint analyze_from (apiKey modelId : string) (n : nat) (papers : list AnalyzedPaper)
    : result (list AnalyzedPaper) :=
  match papers with
  | [] => Ok []
  | paper :: rest =>
      analyzed ← analyzeSingle apiKey modelId n paper;
      others ← analyze_from apiKey modelId (S n) rest;
      Ok (analyzed :: others)
  end.

Definition deepAnalyzePapersWithLLM (papers : list AnalyzedPaper)
    (apiKey modelId : string) : result (list AnalyzedPaper) :=
  analyze_from apiKey modelId 0 papers.

End SiliconFlow.

(* ===================================================================== *)
(** * Sample stores, records and collaborators                            *)
(* ===================================================================== *)

Definition sample_paper (i pub : string) : ArxivPaper :=
  {| id := i; title := "t"; summary := "s"; authors := []; published := pub;
     link := i; categories := []; comment := None |}.

(** Two raw files of earlier days, next to each other in the key order. *)
Definition two_stale_raw_files : Storage :=
  [("data/raw/2024-01-01.json", SRaw "2024-01-01" []);
   ("data/raw/2024-01-02.json", SRaw "2024-01-02" [])].

Definition two_stale_filtered_files : Storage :=
  [("data/filtered/2024-01-01.json", SFiltered "2024-01-01" []);
   ("data/filtered/2024-01-02.json", SFiltered "2024-01-02" [])].

(** Three stale raw files and the file of the day. *)
Definition four_raw_files : Storage :=
  [("data/raw/2023-12-30.json", SRaw "2023-12-30" []);
   ("data/raw/2024-01-01.json", SRaw "2024-01-01" []);
   ("data/raw/2024-01-02.json", SRaw "2024-01-02" []);
   ("data/raw/2024-01-03.json", SRaw "2024-01-03" [])].

(** A store with a settings key, a manifest, a report and both stage files. *)
Definition mixed_store : Storage :=
  [("siliconflow_api_key", SText "sk-demo");
   ("data/reports/manifest.json", SManifest ["2024-01-02"]);
   ("data/reports/2024-01-02.json", SReport "2024-01-02" 1704153600000 []);
   ("data/raw/2024-01-02.json", SRaw "2024-01-02" []);
   ("data/filtered/2024-01-02.json", SFiltered "2024-01-02" [])].

(** Nine daily report commits, oldest first, on a store without reports. *)
Definition nine_commits : list (string * Z * list AnalyzedPaper) :=
  map (fun d => (d, 0%Z, []))
      ["2024-01-01"; "2024-01-02"; "2024-01-03"; "2024-01-04"; "2024-01-05";
       "2024-01-06"; "2024-01-07"; "2024-01-08"; "2024-01-09"].

Definition store_without_reports : Storage :=
  [("siliconflow_api_key", SText "sk-demo");
   ("data/raw/2024-01-01.json", SRaw "2024-01-01" [])].

(** Collaborators for the fallback path: UTC as local time, a date parser
    that knows four timestamps (every other string, the empty one included,
    is an Invalid Date), and a feed of two pages. *)
Definition sample_LocalTZA (t : Z) : Z := 0.

Definition sample_Date_parse (s : string) : Date :=
  if String.eqb s "2024-01-01T18:00:00Z" then Some 1704132000000%Z       (* Monday *)
  else if String.eqb s "2024-01-02T18:00:00Z" then Some 1704218400000%Z  (* Tuesday *)
  else if String.eqb s "2024-01-01T14:00:00Z" then Some 1704117600000%Z
  else if String.eqb s "2023-12-29T18:00:00Z" then Some 1703872800000%Z  (* Friday *)
  else None.

Definition tuesday_paper : ArxivPaper := sample_paper "a" "2024-01-02T18:00:00Z".
Definition undated_paper : ArxivPaper := sample_paper "b" "".
Definition monday_paper : ArxivPaper := sample_paper "c" "2024-01-01T14:00:00Z".
Definition friday_paper : ArxivPaper := sample_paper "d" "2023-12-29T18:00:00Z".
Definition late_paper : ArxivPaper := sample_paper "e" "2024-01-02T18:00:00Z".

Definition sample_feed (start : nat) : option (list ArxivPaper) :=
  match start with
  | 0 => Some [tuesday_paper; undated_paper; monday_paper; friday_paper; late_paper]
  | _ => Some [sample_paper "f" "2024-01-02T18:00:00Z"]
  end.

(** A feed whose newest record is from a Monday. *)
Definition monday_feed (start : nat) : option (list ArxivPaper) :=
  match start with
  | 0 => Some [sample_paper "m" "2024-01-01T18:00:00Z"; friday_paper]
  | _ => Some []
  end.

(** Collaborators for the primary path: both listing pages show the same
    identifiers, and the query-by-identifier source answers with the record
    of each requested identifier, last requested first
    ([reversing_source]), or with the first record twice
    ([doubling_source]). *)
Definition sample_scrape (url : string) : option (list string) :=
  Some ["2401.00001"; "2401.00002"; "2401.00001"].

Definition abs_url (i : string) : string := "http://arxiv.org/abs/" +:+ i.

Definition reversing_source (chunk : list string) : option (list ArxivPaper) :=
  Some (map (fun i => sample_paper (abs_url i) "2024-01-02T18:00:00Z") (reverse chunk)).

Definition doubling_source (chunk : list string) : option (list ArxivPaper) :=
  match chunk with
  | [] => Some []
  | i :: _ => Some [sample_paper (abs_url i) "2024-01-02T18:00:00Z";
                    sample_paper (abs_url i) "2024-01-02T18:00:00Z"]
  end.

Definition no_feed (start : nat) : option (list ArxivPaper) := None.

(** Collaborators for the LLM stages: a scorer that answers with two
    score objects, one for the paper "a" and one for an identifier that is
    in no batch, and an analyst that answers the first request and fails
    the others. *)
Definition sample_completion (n : nat) (apiKey model : string) (p : prompt)
    : option string :=
  match p with
  | ScorePrompt _ => Some "scores"
  | AnalyzePrompt _ _ => if n =? 0 then Some "analysis" else None
  end.

Definition sample_cleanJsonOutput (text : string) : string := text.

Definition sample_JSON_parse (text : string) : option json :=
  if String.eqb text "scores" then
    Some (JObj [("papers",
                 JArr [JObj [("id", JStr "a"); ("relevanceScore", JNum 8)];
                       JObj [("id", JStr "zz"); ("relevanceScore", JNum 9)]])])
  else if String.eqb text "analysis" then
    Some (JObj [("innovations", JStr "i"); ("methodology", JStr "m");
                ("value", JStr "v")])
  else None.

(** A scorer that names the identifier "a" twice. *)
Definition repeating_JSON_parse (text : string) : option json :=
  if String.eqb text "scores" then
    Some (JObj [("papers",
                 JArr [JObj [("id", JStr "a"); ("relevanceScore", JNum 8)];
                       JObj [("id", JStr "a"); ("relevanceScore", JNum 8)]])])
  else sample_JSON_parse text.

Definition scored (paper : ArxivPaper) : AnalyzedPaper :=
  {| base := paper; relevanceScore := Some (JNum 8); tags := JArr [];
     hasCode := None; isAccepted := None; reasoning := None;
     innovations := None; methodology := None; value := None |}.

Definition analyzed (paper : ArxivPaper) : AnalyzedPaper :=
  {| base := paper; relevanceScore := Some (JNum 8); tags := JArr [];
     hasCode := None; isAccepted := None; reasoning := None;
     innovations := Some (JStr "i"); methodology := Some (JStr "m");
     value := Some (JStr "v") |}.

(* ===================================================================== *)
(** * Properties of strings and paths                                     *)
(* ===================================================================== *)

Lemma length_app_string (a b : string) :
  String.length (a +:+ b) = String.length a + String.length b.
Proof. induction a as [|c a IH]; simpl; [reflexivity | now rewrite IH]. Qed.

Lemma app_string_cancel_r (a b s : string) : a +:+ s = b +:+ s -> a = b.
Proof.
  revert b. induction a as [|c a IH]; intros [|c' b] H.
  - reflexivity.
  - apply (f_equal String.length) in H.
    rewrite !length_app_string in H. cbn [String.length] in H. lia.
  - apply (f_equal String.length) in H.
    rewrite !length_app_string in H. cbn [String.length] in H. lia.
  - simpl in H. injection H as -> H. f_equal. now apply IH.
Qed.

Lemma startsWith_app (dirPrefix rest : string) :
  startsWith (dirPrefix +:+ rest) dirPrefix = true.
Proof.
  unfold startsWith. induction dirPrefix as [|c p IH]; simpl.
  - now destruct rest.
  - destruct (Ascii.ascii_dec c c); [exact IH | congruence].
Qed.

Lemma getReportPath_inj (d d' : string) : getReportPath d = getReportPath d' -> d = d'.
Proof.
  unfold getReportPath. intros H. apply String.app_inj in H.
  now apply app_string_cancel_r in H.
Qed.

Lemma getReportPath_manifest (d : string) :
  getReportPath d = PATH_MANIFEST -> d = "manifest".
Proof. intros H. now apply (getReportPath_inj d "manifest"). Qed.

Lemma getRawPath_in_dir (d : string) : startsWith (getRawPath d) PATH_RAW_DIR = true.
Proof. apply startsWith_app. Qed.

Lemma getFilteredPath_in_dir (d : string) :
  startsWith (getFilteredPath d) PATH_FILTERED_DIR = true.
Proof. apply startsWith_app. Qed.

Lemma getReportPath_in_dir (d : string) :
  startsWith (getReportPath d) PATH_REPORTS_DIR = true.
Proof. apply startsWith_app. Qed.

(* ===================================================================== *)
(** * Properties of [localStorage]                                        *)
(* ===================================================================== *)

Lemma getItem_setItem_eq (k : string) (v : stored) (ls : Storage) :
  getItem k (setItem k v ls) = Some v.
Proof.
  induction ls as [|[k' v'] ls IH]; simpl.
  - now rewrite String.eqb_refl.
  - destruct (String.eqb k' k) eqn:E; simpl; rewrite E; [reflexivity | exact IH].
Qed.

Lemma getItem_setItem_ne (k k' : string) (v : stored) (ls : Storage) :
  k <> k' -> getItem k (setItem k' v ls) = getItem k ls.
Proof.
  intros Hne. induction ls as [|[k0 v0] ls IH]; simpl.
  - destruct (String.eqb_spec k' k); congruence.
  - destruct (String.eqb_spec k0 k'); simpl.
    + subst k0. destruct (String.eqb_spec k' k); congruence.
    + destruct (String.eqb_spec k0 k); [reflexivity | exact IH].
Qed.

Lemma getItem_removeItem_eq (k : string) (ls : Storage) :
  getItem k (removeItem k ls) = None.
Proof.
  induction ls as [|[k' v'] ls IH]; simpl; [reflexivity |].
  destruct (String.eqb k' k) eqn:E; simpl; [exact IH | now rewrite E].
Qed.

Lemma getItem_removeItem_ne (k k' : string) (ls : Storage) :
  k <> k' -> getItem k (removeItem k' ls) = getItem k ls.
Proof.
  intros Hne. induction ls as [|[k0 v0] ls IH]; simpl; [reflexivity |].
  destruct (String.eqb_spec k0 k'); simpl.
  - subst k0. destruct (String.eqb_spec k' k); congruence.
  - destruct (String.eqb_spec k0 k); [reflexivity | exact IH].
Qed.

Lemma length_removeItem (k : string) (ls : Storage) :
  length (removeItem k ls) <= length ls.
Proof.
  induction ls as [|[k' v'] ls IH]; simpl; [lia |].
  destruct (String.eqb k' k); simpl; lia.
Qed.

Lemma getItem_keys (k : string) (ls : Storage) :
  is_Some (getItem k ls) <-> k ∈ keys ls.
Proof.
  induction ls as [|[k' v'] ls IH]; simpl.
  - split; [intros [? ?]; discriminate | intros H; inversion H].
  - destruct (String.eqb_spec k' k) as [->|Hne].
    + split; [intros _; left | intros _; eexists; reflexivity].
    + rewrite IH. split; [now right | intros H].
      inversion H; subst; [congruence | assumption].
Qed.

(** The cleanup loop ends within the fuel [cleanupDirectory] gives it. *)
Lemma cleanup_loop_total (dirPrefix currentFile : string) (fuel i : nat) (ls : Storage) :
  length ls - i < fuel ->
  is_Some (cleanup_loop fuel dirPrefix currentFile i ls).
Proof.
  revert i ls. induction fuel as [|fuel IH]; intros i ls Hf; [lia |].
  simpl. destruct (Nat.ltb_spec i (length ls)); [| eexists; reflexivity].
  destruct (key i ls) as [k|]; [| apply IH; lia].
  destruct (is_stale _ _ _); apply IH; [| lia].
  pose proof (length_removeItem k ls). lia.
Qed.

Lemma cleanupDirectory_loop (dirPrefix currentFile : string) (ls : Storage) :
  cleanup_loop (S (length ls)) dirPrefix currentFile 0 ls
  = Some (cleanupDirectory dirPrefix currentFile ls).
Proof.
  unfold cleanupDirectory.
  destruct (cleanup_loop_total dirPrefix currentFile (S (length ls)) 0 ls) as [r Hr]; [lia |].
  now rewrite Hr.
Qed.

(** Frame of the loop: a key outside the directory keeps its value. *)
Lemma cleanup_loop_frame (dirPrefix currentFile k : string) (fuel i : nat)
    (ls ls' : Storage) :
  startsWith k dirPrefix = false ->
  cleanup_loop fuel dirPrefix currentFile i ls = Some ls' ->
  getItem k ls' = getItem k ls.
Proof.
  intros Hk. revert i ls. induction fuel as [|fuel IH]; intros i ls H; [discriminate |].
  simpl in H. destruct (i <? length ls); [| now injection H as ->].
  destruct (key i ls) as [k0|]; [| now apply IH in H].
  destruct (is_stale dirPrefix currentFile k0) eqn:E; [| now apply IH in H].
  apply IH in H. rewrite H. apply getItem_removeItem_ne.
  intros ->. unfold is_stale in E.
  apply andb_prop in E as [E _]. apply andb_prop in E as [_ E]. congruence.
Qed.

Lemma cleanupDirectory_frame (dirPrefix currentFile k : string) (ls : Storage) :
  startsWith k dirPrefix = false ->
  getItem k (cleanupDirectory dirPrefix currentFile ls) = getItem k ls.
Proof.
  intros Hk. eapply cleanup_loop_frame; [exact Hk | apply cleanupDirectory_loop].
Qed.

(** The file just written survives the sweep. *)
Lemma cleanup_loop_keeps_current (dirPrefix currentFile : string) (fuel i : nat)
    (ls ls' : Storage) :
  cleanup_loop fuel dirPrefix currentFile i ls = Some ls' ->
  getItem currentFile ls' = getItem currentFile ls.
Proof.
  revert i ls. induction fuel as [|fuel IH]; intros i ls H; [discriminate |].
  simpl in H. destruct (i <? length ls); [| now injection H as ->].
  destruct (key i ls) as [k0|]; [| now apply IH in H].
  destruct (is_stale dirPrefix currentFile k0) eqn:E; [| now apply IH in H].
  apply IH in H. rewrite H. apply getItem_removeItem_ne.
  intros ->. unfold is_stale in E.
  apply andb_prop in E as [_ E]. now rewrite String.eqb_refl in E.
Qed.

(** The sweep only deletes: what it leaves was there, with the same value. *)
Lemma cleanup_loop_shrinks (dirPrefix currentFile k : string) (v : stored)
    (fuel i : nat) (ls ls' : Storage) :
  cleanup_loop fuel dirPrefix currentFile i ls = Some ls' ->
  getItem k ls' = Some v -> getItem k ls = Some v.
Proof.
  revert i ls. induction fuel as [|fuel IH]; intros i ls H Hv; [discriminate |].
  simpl in H. destruct (i <? length ls); [| now injection H as ->].
  destruct (key i ls) as [k0|]; [| now apply (IH _ _ H)].
  destruct (is_stale dirPrefix currentFile k0); [| now apply (IH _ _ H)].
  specialize (IH _ _ H Hv). destruct (String.eqb_spec k k0) as [->|Hne].
  - now rewrite getItem_removeItem_eq in IH.
  - now rewrite getItem_removeItem_ne in IH.
Qed.

(* ===================================================================== *)
(** * Raw and filtered commits                                            *)
(* ===================================================================== *)

Lemma saveRawData_writes (todayStr : string) (papers : list ArxivPaper) (ls : Storage) :
  getItem (getRawPath todayStr) (saveRawData todayStr papers ls)
  = Some (SRaw todayStr papers).
Proof.
  unfold saveRawData.
  erewrite cleanup_loop_keeps_current by apply cleanupDirectory_loop.
  apply getItem_setItem_eq.
Qed.

Lemma saveFilteredData_writes (todayStr : string) (papers : list AnalyzedPaper)
    (ls : Storage) :
  getItem (getFilteredPath todayStr) (saveFilteredData todayStr papers ls)
  = Some (SFiltered todayStr papers).
Proof.
  unfold saveFilteredData.
  erewrite cleanup_loop_keeps_current by apply cleanupDirectory_loop.
  apply getItem_setItem_eq.
Qed.

Lemma startsWith_other_key (k k' dirPrefix : string) :
  startsWith k dirPrefix = false -> startsWith k' dirPrefix = true -> k <> k'.
Proof. intros H1 H2 ->. congruence. Qed.

(** C10. A commit to the raw or to the filtered channel changes no key
    outside that channel's directory: for every store and every key that
    does not start with the directory prefix (a report snapshot, the
    manifest, a settings key), the value read after [cleanupDirectory],
    after [saveRawData] and after [saveFilteredData] is the value read
    before. *)
Theorem C10_commit_frame (ls : Storage) (k todayStr dirPrefix currentFile : string)
    (raw : list ArxivPaper) (filtered : list AnalyzedPaper) :
  (startsWith k dirPrefix = false ->
   getItem k (cleanupDirectory dirPrefix currentFile ls) = getItem k ls) /\
  (startsWith k PATH_RAW_DIR = false ->
   getItem k (saveRawData todayStr raw ls) = getItem k ls) /\
  (startsWith k PATH_FILTERED_DIR = false ->
   getItem k (saveFilteredData todayStr filtered ls) = getItem k ls).
Proof.
  split; [| split]; intros Hk.
  - now apply cleanupDirectory_frame.
  - unfold saveRawData. rewrite cleanupDirectory_frame by exact Hk.
    apply getItem_setItem_ne.
    eapply startsWith_other_key; [exact Hk | apply getRawPath_in_dir].
  - unfold saveFilteredData. rewrite cleanupDirectory_frame by exact Hk.
    apply getItem_setItem_ne.
    eapply startsWith_other_key; [exact Hk | apply getFilteredPath_in_dir].
Qed.

(** ** What the sweep of [cleanupDirectory] computes *)

Lemma removeItem_absent (k : string) (ls : Storage) :
  k ∉ keys ls -> removeItem k ls = ls.
Proof.
  induction ls as [|[k' v'] ls IH]; simpl; intros Hk; [reflexivity |].
  apply not_elem_of_cons in Hk as [Hne Hk].
  destruct (String.eqb_spec k' k); [congruence | now rewrite IH].
Qed.

Lemma removeItem_at (k : string) (v : stored) (pre suf : Storage) :
  NoDup (keys (pre ++ (k, v) :: suf)) ->
  removeItem k (pre ++ (k, v) :: suf) = pre ++ suf.
Proof.
  unfold keys. rewrite map_app. simpl. intros Hnd.
  apply NoDup_app in Hnd as (_ & Hpre & Hsuf).
  apply NoDup_cons in Hsuf as [Hk _].
  induction pre as [|[k' v'] pre IH]; simpl.
  - rewrite String.eqb_refl. now apply removeItem_absent.
  - destruct (String.eqb_spec k' k) as [->|Hne].
    + exfalso. apply (Hpre k); [left | left].
    + f_equal. apply IH. intros x Hx. apply Hpre. now right.
Qed.

Lemma key_at (k : string) (v : stored) (pre suf : Storage) :
  key (length pre) (pre ++ (k, v) :: suf) = Some k.
Proof.
  unfold key. induction pre as [|e pre IH]; simpl; [reflexivity | exact IH].
Qed.

Lemma NoDup_keys_drop_middle (e : string * stored) (pre suf : Storage) :
  NoDup (keys (pre ++ e :: suf)) -> NoDup (keys (pre ++ suf)).
Proof.
  unfold keys. rewrite !map_app. simpl. intros H.
  apply NoDup_app in H as (H1 & H2 & H3). apply NoDup_cons in H3 as [_ H3].
  apply NoDup_app. split; [exact H1 | split; [| exact H3]].
  intros x Hx Hin. apply (H2 x Hx). now right.
Qed.

(** With the index at the end of [pre], the loop leaves [pre] alone and
    turns the remaining entries into their [sweep]. *)
Lemma cleanup_loop_sweep (dirPrefix currentFile : string) (fuel : nat)
    (pre suf : Storage) :
  NoDup (keys (pre ++ suf)) ->
  length suf < fuel ->
  cleanup_loop fuel dirPrefix currentFile (length pre) (pre ++ suf)
  = Some (pre ++ sweep dirPrefix currentFile suf).
Proof.
  revert pre suf. induction fuel as [|fuel IH]; intros pre suf Hnd Hf; [lia |].
  cbn [cleanup_loop]. rewrite length_app.
  destruct suf as [|[k v] rest].
  - simpl. destruct (Nat.ltb_spec (length pre) (length pre + 0)); [lia | reflexivity].
  - destruct (Nat.ltb_spec (length pre) (length pre + length ((k, v) :: rest)));
      [| simpl in *; lia].
    rewrite key_at. cbn [sweep].
    destruct (is_stale dirPrefix currentFile k).
    + rewrite removeItem_at by exact Hnd.
      apply NoDup_keys_drop_middle in Hnd.
      destruct rest as [|e rest'].
      * rewrite !app_nil_r. destruct fuel as [|fuel]; [simpl in Hf; lia |].
        cbn [cleanup_loop].
        destruct (Nat.ltb_spec (S (length pre)) (length pre)); [lia | reflexivity].
      * specialize (IH (pre ++ [e]) rest').
        rewrite length_app, <- app_assoc in IH. simpl in IH.
        replace (length pre + 1) with (S (length pre)) in IH by lia.
        rewrite IH; [now rewrite <- app_assoc | exact Hnd | simpl in Hf; lia].
    + specialize (IH (pre ++ [(k, v)]) rest).
      rewrite length_app, <- app_assoc in IH. simpl in IH.
      replace (length pre + 1) with (S (length pre)) in IH by lia.
      rewrite IH; [now rewrite <- app_assoc | exact Hnd | simpl in Hf; lia].
Qed.

Lemma cleanupDirectory_sweep (dirPrefix currentFile : string) (ls : Storage) :
  NoDup (keys ls) ->
  cleanupDirectory dirPrefix currentFile ls = sweep dirPrefix currentFile ls.
Proof.
  intros Hnd. unfold cleanupDirectory.
  pose proof (cleanup_loop_sweep dirPrefix currentFile (S (length ls)) [] ls Hnd) as H.
  change (length [] (A := string * stored)) with 0 in H.
  change ([] ++ ls) with ls in H. rewrite H by lia. reflexivity.
Qed.

(** The entry that follows a stale one is kept untested: the second of two
    neighbouring stale files survives every sweep. *)
Lemma sweep_skips_neighbour (dirPrefix currentFile k1 k2 : string) (v1 v2 : stored)
    (pre suf : Storage) :
  Forall (fun e => is_stale dirPrefix currentFile e.1 = false) pre ->
  is_stale dirPrefix currentFile k1 = true ->
  (k2, v2) ∈ sweep dirPrefix currentFile (pre ++ (k1, v1) :: (k2, v2) :: suf).
Proof.
  intros Hpre H1. induction Hpre as [|[k v] pre Hk _ IH]; simpl.
  - rewrite H1. left.
  - simpl in Hk. rewrite Hk. right. exact IH.
Qed.

Lemma sweep_no_stale (dirPrefix currentFile : string) (ls : Storage) :
  Forall (fun e => is_stale dirPrefix currentFile e.1 = false) ls ->
  sweep dirPrefix currentFile ls = ls.
Proof.
  induction 1 as [|[k v] ls Hk _ IH]; simpl; [reflexivity |].
  simpl in Hk. now rewrite Hk, IH.
Qed.

(** A single stale file is always removed, and nothing else is. *)
Lemma sweep_one_stale (dirPrefix currentFile k : string) (v : stored) (pre suf : Storage) :
  Forall (fun e => is_stale dirPrefix currentFile e.1 = false) pre ->
  Forall (fun e => is_stale dirPrefix currentFile e.1 = false) suf ->
  is_stale dirPrefix currentFile k = true ->
  sweep dirPrefix currentFile (pre ++ (k, v) :: suf) = pre ++ suf.
Proof.
  intros Hpre Hsuf Hk. induction Hpre as [|[k0 v0] pre Hk0 _ IH]; simpl.
  - rewrite Hk. destruct suf as [|e suf']; [reflexivity |].
    f_equal. apply sweep_no_stale. now inversion Hsuf.
  - simpl in Hk0. now rewrite Hk0, IH.
Qed.

(** ** When the sweep does empty the directory *)

Lemma keys_filter (P : string -> Prop) `{forall k, Decision (P k)} (ls : Storage) :
  keys (filter (fun e => P e.1) ls) = filter P (keys ls).
Proof.
  induction ls as [|[k v] ls IH]; [reflexivity |].
  unfold keys in *. rewrite filter_cons. simpl. rewrite filter_cons.
  destruct (decide (P k)); simpl; now rewrite IH.
Qed.

Lemma length_filter_keys (P : string -> Prop) `{forall k, Decision (P k)} (ls : Storage) :
  length (filter (fun e => P e.1) ls) = length (filter P (keys ls)).
Proof. rewrite <- keys_filter. unfold keys. now rewrite length_map. Qed.

Lemma filter_nil_Forall {A} (P : A -> Prop) `{forall x, Decision (P x)} (l : list A) :
  filter P l = [] -> Forall (fun x => ~ P x) l.
Proof.
  induction l as [|x l IH]; [constructor |].
  rewrite filter_cons. destruct (decide (P x)); [discriminate |].
  intros Hl. constructor; [assumption | now apply IH].
Qed.

(** With at most one stale entry the index shift is harmless. *)
Lemma sweep_at_most_one (dirPrefix currentFile : string) (ls : Storage) :
  length (filter (fun e => is_stale dirPrefix currentFile e.1 = true) ls) <= 1 ->
  sweep dirPrefix currentFile ls
  = filter (fun e => is_stale dirPrefix currentFile e.1 = false) ls.
Proof.
  induction ls as [|[k v] ls IH]; [reflexivity |].
  rewrite !filter_cons. cbn [sweep fst].
  destruct (is_stale dirPrefix currentFile k) eqn:Ek.
  - rewrite decide_True by reflexivity. rewrite decide_False by discriminate.
    cbn [length]. intros Hlen.
    assert (Hnone : filter (fun e => is_stale dirPrefix currentFile e.1 = true) ls = [])
      by (apply length_zero_iff_nil; lia).
    assert (Hall : Forall (fun e => is_stale dirPrefix currentFile e.1 = false) ls).
    { apply filter_nil_Forall in Hnone. eapply Forall_impl; [exact Hnone |].
      intros x Hx. simpl in Hx. now destruct (is_stale dirPrefix currentFile x.1). }
    rewrite <- IH by (rewrite Hnone; simpl; lia).
    rewrite (sweep_no_stale _ _ ls Hall).
    destruct ls as [|x rest]; [reflexivity |]. f_equal.
    apply sweep_no_stale. now inversion Hall.
  - rewrite decide_False by discriminate. rewrite decide_True by reflexivity.
    intros Hlen. now rewrite IH.
Qed.

Lemma setItem_present (k : string) (v : stored) (ls : Storage) :
  k ∈ keys ls -> keys (setItem k v ls) = keys ls.
Proof.
  induction ls as [|[k' v'] ls IH]; simpl; intros Hk; [inversion Hk |].
  destruct (String.eqb_spec k' k); [reflexivity |]. simpl. f_equal.
  apply IH. inversion Hk; subst; [congruence | assumption].
Qed.

Lemma setItem_absent (k : string) (v : stored) (ls : Storage) :
  k ∉ keys ls -> setItem k v ls = ls ++ [(k, v)].
Proof.
  induction ls as [|[k' v'] ls IH]; simpl; intros Hk; [reflexivity |].
  apply not_elem_of_cons in Hk as [Hne Hk].
  destruct (String.eqb_spec k' k); [congruence | now rewrite IH].
Qed.

Lemma NoDup_keys_setItem (k : string) (v : stored) (ls : Storage) :
  NoDup (keys ls) -> NoDup (keys (setItem k v ls)).
Proof.
  intros Hnd. destruct (decide (k ∈ keys ls)) as [Hin|Hout].
  - now rewrite setItem_present.
  - rewrite setItem_absent by exact Hout. unfold keys. rewrite map_app. simpl.
    apply NoDup_app. split; [exact Hnd | split; [| apply NoDup_singleton]].
    intros x Hx Hx'. apply list_elem_of_singleton in Hx'. now subst.
Qed.

Lemma filter_only {A} (P : A -> Prop) `{forall x, Decision (P x)} (c : A) (l : list A) :
  NoDup l -> c ∈ l -> P c -> (forall x, x ∈ l -> P x -> x = c) ->
  filter P l = [c].
Proof.
  induction l as [|x l IH]; intros Hnd Hc Pc Hall; [inversion Hc |].
  apply NoDup_cons in Hnd as [Hx Hnd]. rewrite filter_cons.
  destruct (decide (P x)) as [Px|NPx].
  - assert (x = c) as -> by (apply Hall; [left | exact Px]).
    f_equal. destruct (filter P l) as [|y l'] eqn:E; [reflexivity |].
    assert (Hy : y ∈ filter P l) by (rewrite E; left).
    apply list_elem_of_filter in Hy as [Py Hy].
    assert (y = c) as -> by (apply Hall; [now right | exact Py]). contradiction.
  - apply IH; [exact Hnd | | exact Pc |].
    + inversion Hc; subst; [contradiction | assumption].
    + intros y Hy. apply Hall. now right.
Qed.

Lemma filter_length_le {A} (P Q : A -> Prop) `{forall x, Decision (P x)}
    `{forall x, Decision (Q x)} (l : list A) :
  (forall x, P x -> Q x) -> length (filter P l) <= length (filter Q l).
Proof.
  intros HPQ. induction l as [|x l IH]; [reflexivity |].
  rewrite !filter_cons. destruct (decide (P x)) as [Px|NPx].
  - destruct (decide (Q x)); [simpl; lia | exfalso; auto].
  - destruct (decide (Q x)); simpl; lia.
Qed.

(** A write followed by the sweep leaves exactly the written file in the
    directory when the directory held at most one file before: this is the
    case in every store the program itself has produced. *)
Lemma commit_single_slot (dirPrefix currentFile : string) (v : stored) (ls : Storage) :
  startsWith currentFile dirPrefix = true ->
  startsWith "" dirPrefix = false ->
  NoDup (keys ls) ->
  length (inDirectory dirPrefix ls) <= 1 ->
  let ls' := cleanupDirectory dirPrefix currentFile (setItem currentFile v ls) in
  inDirectory dirPrefix ls' = [currentFile] /\ NoDup (keys ls').
Proof.
  intros Hcur Hempty Hnd Hlen ls'.
  set (ls1 := setItem currentFile v ls).
  assert (Hnd1 : NoDup (keys ls1)) by now apply NoDup_keys_setItem.
  assert (Hin1 : currentFile ∈ keys ls1)
    by (apply getItem_keys; unfold ls1; rewrite getItem_setItem_eq; eexists; reflexivity).
  assert (Hfresh : is_stale dirPrefix currentFile currentFile = false)
    by (unfold is_stale; rewrite String.eqb_refl; now rewrite andb_false_r).
  assert (Hcount :
    length (filter (fun k => is_stale dirPrefix currentFile k = true) (keys ls1)) <= 1).
  { subst ls1. destruct (decide (currentFile ∈ keys ls)) as [Hin|Hout].
    - rewrite setItem_present by exact Hin.
      etransitivity; [| exact Hlen]. unfold inDirectory.
      apply filter_length_le. intros x Hx. unfold is_stale in Hx.
      apply andb_prop in Hx as [Hx _]. now apply andb_prop in Hx as [_ Hx].
    - rewrite setItem_absent by exact Hout. unfold keys. rewrite map_app, filter_app.
      simpl. rewrite filter_cons, filter_nil.
      destruct (decide _); [congruence |]. rewrite app_nil_r.
      etransitivity; [| exact Hlen]. unfold inDirectory.
      apply filter_length_le. intros x Hx. unfold is_stale in Hx.
      apply andb_prop in Hx as [Hx _]. now apply andb_prop in Hx as [_ Hx]. }
  assert (Hsweep : ls' = filter (fun e => is_stale dirPrefix currentFile e.1 = false) ls1).
  { subst ls'. fold ls1. rewrite cleanupDirectory_sweep by exact Hnd1.
    apply sweep_at_most_one.
    pose proof (length_filter_keys
                  (fun k => is_stale dirPrefix currentFile k = true) ls1) as Hk.
    cbv beta in Hk. rewrite Hk. exact Hcount. }
  rewrite Hsweep. unfold inDirectory.
  pose proof (keys_filter (fun k => is_stale dirPrefix currentFile k = false) ls1) as Hkf.
  cbv beta in Hkf. rewrite Hkf.
  assert (Hnd' : NoDup (filter (fun k => is_stale dirPrefix currentFile k = false) (keys ls1)))
    by (eapply sublist_NoDup; [exact Hnd1 | apply sublist_filter]).
  split; [| exact Hnd'].
  apply filter_only; [exact Hnd' | | exact Hcur |].
  - apply list_elem_of_filter. now split.
  - intros x Hx Hdir. apply list_elem_of_filter in Hx as [Hx _].
    unfold is_stale in Hx. rewrite Hdir in Hx.
    destruct (String.eqb_spec x "") as [E|_]; [rewrite E in Hdir; congruence |].
    destruct (String.eqb_spec x currentFile); [assumption | discriminate].
Qed.

(** The last raw or filtered file of a store is replaced with that of the
    day when it is the only one. *)
Lemma saveRawData_single_slot (todayStr : string) (papers : list ArxivPaper)
    (ls : Storage) :
  NoDup (keys ls) ->
  length (inDirectory PATH_RAW_DIR ls) <= 1 ->
  inDirectory PATH_RAW_DIR (saveRawData todayStr papers ls) = [getRawPath todayStr]
  /\ NoDup (keys (saveRawData todayStr papers ls)).
Proof.
  intros Hnd Hlen. unfold saveRawData.
  apply commit_single_slot; [apply getRawPath_in_dir | reflexivity | exact Hnd | exact Hlen].
Qed.

Lemma saveFilteredData_single_slot (todayStr : string) (papers : list AnalyzedPaper)
    (ls : Storage) :
  NoDup (keys ls) ->
  length (inDirectory PATH_FILTERED_DIR ls) <= 1 ->
  inDirectory PATH_FILTERED_DIR (saveFilteredData todayStr papers ls)
  = [getFilteredPath todayStr]
  /\ NoDup (keys (saveFilteredData todayStr papers ls)).
Proof.
  intros Hnd Hlen. unfold saveFilteredData.
  apply commit_single_slot;
    [apply getFilteredPath_in_dir | reflexivity | exact Hnd | exact Hlen].
Qed.

(** Whatever the order in which [localStorage] lists four raw files, three
    of them stale, the sweep leaves at least two files in the directory. *)
Lemma sweep_leaves_stale_in_every_order :
  forallb (fun ls => 1 <? length (inDirectory PATH_RAW_DIR
                          (cleanupDirectory PATH_RAW_DIR "data/raw/2024-01-03.json" ls)))
          (permutations four_raw_files) = true.
Proof. vm_compute. reflexivity. Qed.

(** C2. [saveRawData] on a store that holds the raw files of two earlier
    days leaves two files in the raw directory, the one of the day and a
    stale one: removing the first stale key moves the second to the index
    just tested, and the loop steps over it. The same holds for
    [saveFilteredData]. *)
Theorem C2_stale_file_survives :
  inDirectory PATH_RAW_DIR (saveRawData "2024-01-03" [] two_stale_raw_files)
  = ["data/raw/2024-01-02.json"; "data/raw/2024-01-03.json"] /\
  inDirectory PATH_FILTERED_DIR (saveFilteredData "2024-01-03" [] two_stale_filtered_files)
  = ["data/filtered/2024-01-02.json"; "data/filtered/2024-01-03.json"].
Proof. split; vm_compute; reflexivity. Qed.

Lemma C10_commit_frame_witness :
  getItem PATH_MANIFEST (cleanupDirectory PATH_RAW_DIR "data/raw/2024-01-03.json" mixed_store)
  = getItem PATH_MANIFEST mixed_store /\
  getItem PATH_MANIFEST (saveRawData "2024-01-03" [] mixed_store)
  = getItem PATH_MANIFEST mixed_store /\
  getItem PATH_MANIFEST (saveFilteredData "2024-01-03" [] mixed_store)
  = getItem PATH_MANIFEST mixed_store.
Proof.
  pose proof (C10_commit_frame mixed_store PATH_MANIFEST "2024-01-03" PATH_RAW_DIR
                "data/raw/2024-01-03.json" [] []) as (H1 & H2 & H3).
  split; [apply H1; reflexivity | split; [apply H2; reflexivity | apply H3; reflexivity]].
Defined.

(* ===================================================================== *)
(** * Report commits and the manifest                                     *)
(* ===================================================================== *)

Lemma getItem_removeReports (k : string) (toRemove : list string) (ls : Storage) :
  getItem k (removeReports toRemove ls)
  = if decide (k ∈ map getReportPath toRemove) then None else getItem k ls.
Proof.
  unfold removeReports. revert ls.
  induction toRemove as [|d ds IH]; intros ls; cbn [fold_left map].
  - case_decide as H; [inversion H | reflexivity].
  - rewrite IH. destruct (decide (k ∈ map getReportPath ds)) as [Hin|Hout].
    + rewrite decide_True by now right. reflexivity.
    + destruct (decide (k = getReportPath d)) as [->|Hne].
      * rewrite decide_True by left. apply getItem_removeItem_eq.
      * rewrite decide_False by (intros H; inversion H; subst; contradiction).
        now apply getItem_removeItem_ne.
Qed.

Lemma getManifest_setItem_other (k : string) (v : stored) (ls : Storage) :
  k <> PATH_MANIFEST -> getManifest (setItem k v ls) = getManifest ls.
Proof. intros Hne. unfold getManifest. rewrite getItem_setItem_ne by congruence. reflexivity. Qed.

Lemma getManifest_stored (dates : list string) (ls : Storage) :
  getItem PATH_MANIFEST ls = Some (SManifest dates) -> getManifest ls = Some dates.
Proof. intros H. unfold getManifest. now rewrite H. Qed.

(** One commit for a date that is not in the manifest yet: the manifest
    becomes the first seven of the old one with the date in front, the
    reports of the dates beyond are gone, the new report is there and every
    other key is as before. *)
Lemma saveReport_new_date (d : string) (now : Z) (papers : list AnalyzedPaper)
    (m : list string) (ls : Storage) :
  d <> "manifest" ->
  getManifest ls = Some m ->
  d ∉ m ->
  let ls' := saveReport d now papers ls in
  getItem PATH_MANIFEST ls' = Some (SManifest (take 7 (d :: m))) /\
  forall k, k <> PATH_MANIFEST ->
    getItem k ls'
    = if decide (k ∈ map getReportPath (drop 7 (d :: m))) then None
      else getItem k (setItem (getReportPath d) (SReport d now papers) ls).
Proof.
  intros Hd Hm Hfresh ls'. subst ls'. unfold saveReport.
  assert (Hpath : getReportPath d <> PATH_MANIFEST)
    by (intros H; now apply getReportPath_manifest in H).
  rewrite getManifest_setItem_other by exact Hpath. rewrite Hm.
  rewrite bool_decide_eq_false_2 by exact Hfresh.
  destruct (Nat.ltb_spec 7 (length (d :: m))) as [Hlong|Hshort].
  - split.
    + apply getItem_setItem_eq.
    + intros k Hk. rewrite getItem_setItem_ne by exact Hk.
      rewrite getItem_removeReports.
      case_decide; [reflexivity |].
      now rewrite getItem_setItem_ne by exact Hk.
  - rewrite take_ge, drop_ge by exact Hshort. split.
    + apply getItem_setItem_eq.
    + intros k Hk. rewrite decide_False by (intros H; inversion H).
      now rewrite getItem_setItem_ne by exact Hk.
Qed.

Lemma elem_of_take_inv {A} (x : A) (n : nat) (l : list A) : x ∈ take n l -> x ∈ l.
Proof. intros H. eapply elem_of_sublist; [exact H | apply sublist_take]. Qed.

Lemma take_cons_take {A} (n : nat) (x : A) (l : list A) :
  take (S n) (x :: take (S n) l) = take (S n) (x :: l).
Proof. simpl. f_equal. rewrite take_take. f_equal. lia. Qed.

Lemma saveReports_snoc (calls : list (string * Z * list AnalyzedPaper))
    (c : string * Z * list AnalyzedPaper) (ls : Storage) :
  saveReports (calls ++ [c]) ls = saveReport c.1.1 c.1.2 c.2 (saveReports calls ls).
Proof. unfold saveReports. now rewrite fold_left_app. Qed.

(** The state of the report directory after a run of commits with
    distinct dates, starting from an empty directory. *)
Lemma saveReports_invariant (calls : list (string * Z * list AnalyzedPaper))
    (ls : Storage) :
  NoDup (map (fun c => c.1.1) calls) ->
  "manifest" ∉ map (fun c => c.1.1) calls ->
  (forall k, startsWith k PATH_REPORTS_DIR = true -> getItem k ls = None) ->
  let manifest := take 7 (reverse (map (fun c => c.1.1) calls)) in
  getManifest (saveReports calls ls) = Some manifest /\
  forall k v, startsWith k PATH_REPORTS_DIR = true -> k <> PATH_MANIFEST ->
    (getItem k (saveReports calls ls) = Some v <->
     exists d now papers, (d, now, papers) ∈ calls /\ d ∈ manifest /\
                          k = getReportPath d /\ v = SReport d now papers).
Proof.
  intros Hnd Hman Hempty.
  induction calls as [|[[d now] papers] calls IH] using rev_ind.
  - simpl. split.
    + unfold getManifest. now rewrite Hempty.
    + intros k v Hk _. rewrite Hempty by exact Hk. split; [discriminate |].
      intros (? & ? & ? & H & _). inversion H.
  - rewrite map_app in Hnd, Hman. simpl in Hnd, Hman.
    apply NoDup_app in Hnd as (Hnd & Hdisj & _).
    assert (Hd : d ∉ map (fun c => c.1.1) calls)
      by (intros H; apply (Hdisj d H); left).
    assert (Hdm : d <> "manifest")
      by (intros ->; apply Hman, elem_of_app; right; left).
    assert (Hman' : "manifest" ∉ map (fun c => c.1.1) calls)
      by (intros H; apply Hman, elem_of_app; now left).
    specialize (IH Hnd Hman'). cbv zeta in IH. destruct IH as [IHm IHk].
    set (m := take 7 (reverse (map (fun c => c.1.1) calls))) in *.
    assert (Hsub : forall x, x ∈ m -> x ∈ map (fun c => c.1.1) calls).
    { intros x Hx. apply elem_of_reverse. eapply elem_of_take_inv. exact Hx. }
    assert (Hfresh : d ∉ m) by (intros H; now apply Hd, Hsub).
    assert (HndM : NoDup (d :: m)).
    { apply NoDup_cons. split; [exact Hfresh |].
      eapply sublist_NoDup; [| apply sublist_take].
      now rewrite reverse_Permutation. }
    cbv zeta. rewrite map_app. simpl map. rewrite reverse_snoc.
    rewrite <- (take_cons_take 6). fold m.
    rewrite saveReports_snoc. simpl fst. simpl snd.
    destruct (saveReport_new_date d now papers m (saveReports calls ls) Hdm IHm Hfresh)
      as [Hget Hother].
    split; [now apply getManifest_stored |].
    intros k v Hk Hne. rewrite (Hother k Hne).
    assert (Hsplit : forall x, x ∈ d :: m -> x ∈ take 7 (d :: m) \/ x ∈ drop 7 (d :: m)).
    { intros x Hx. rewrite <- (take_drop 7 (d :: m)) in Hx.
      now apply elem_of_app in Hx. }
    assert (Hexcl : forall x, x ∈ take 7 (d :: m) -> x ∈ drop 7 (d :: m) -> False).
    { rewrite <- (take_drop 7 (d :: m)) in HndM.
      apply NoDup_app in HndM as (_ & H & _). exact H. }
    split.
    + case_decide as Hkeep; [discriminate |].
      destruct (decide (k = getReportPath d)) as [->|Hkd].
      * rewrite getItem_setItem_eq. intros [= <-].
        exists d, now, papers. repeat split; [apply elem_of_app; right; left | left].
      * rewrite getItem_setItem_ne by exact Hkd. intros Hv.
        apply (IHk k v Hk Hne) in Hv as (d' & now' & papers' & Hc & Hin & -> & ->).
        exists d', now', papers'. repeat split; [apply elem_of_app; now left |].
        destruct (Hsplit d') as [H|H]; [now right | exact H |].
        exfalso. apply Hkeep. apply list_elem_of_fmap. now exists d'.
    + intros (d' & now' & papers' & Hc & Hin & -> & ->).
      rewrite decide_False.
      2:{ intros H. apply list_elem_of_fmap in H as (d'' & Heq & Hd'').
          apply getReportPath_inj in Heq as <-. exact (Hexcl d' Hin Hd''). }
      apply elem_of_app in Hc as [Hc|Hc].
      * assert (Hdd : d' <> d).
        { intros ->. apply Hd. apply list_elem_of_fmap. now exists (d, now', papers'). }
        rewrite getItem_setItem_ne by (intros H; now apply getReportPath_inj in H).
        apply IHk; [exact Hk | exact Hne |].
        exists d', now', papers'. repeat split; [exact Hc |].
        apply elem_of_take_inv in Hin. inversion Hin; subst; [contradiction | assumption].
      * apply list_elem_of_singleton in Hc. injection Hc as -> -> ->.
        apply getItem_setItem_eq.
Qed.

Lemma empty_directory (dirPrefix : string) (ls : Storage) :
  inDirectory dirPrefix ls = [] ->
  forall k, startsWith k dirPrefix = true -> getItem k ls = None.
Proof.
  intros Hdir k Hk. destruct (getItem k ls) as [v|] eqn:E; [| reflexivity].
  assert (Hin : k ∈ inDirectory dirPrefix ls).
  { apply list_elem_of_filter. split; [exact Hk |].
    apply getItem_keys. rewrite E. eexists; reflexivity. }
  rewrite Hdir in Hin. inversion Hin.
Qed.

(** C1. After N consecutive [saveReport] calls with N distinct date keys,
    on a store whose report directory was empty, the manifest lists the
    dates newest first and has length min(N, 7); every date of the manifest
    has its snapshot in the store, and every key of the report directory
    other than the manifest is the snapshot of a date of the manifest, with
    the content committed for that date. A date key is the date part of an
    ISO timestamp, so it is not the word "manifest". *)
Theorem C1_retention_bound (calls : list (string * Z * list AnalyzedPaper))
    (ls : Storage) :
  NoDup (map (fun c => c.1.1) calls) ->
  "manifest" ∉ map (fun c => c.1.1) calls ->
  inDirectory PATH_REPORTS_DIR ls = [] ->
  let manifest := take 7 (reverse (map (fun c => c.1.1) calls)) in
  let ls' := saveReports calls ls in
  getManifest ls' = Some manifest /\
  length manifest = min (length calls) 7 /\
  Forall (fun d => is_Some (getItem (getReportPath d) ls')) manifest /\
  forall k v, startsWith k PATH_REPORTS_DIR = true -> k <> PATH_MANIFEST ->
    (getItem k ls' = Some v <->
     exists d now papers, (d, now, papers) ∈ calls /\ d ∈ manifest /\
                          k = getReportPath d /\ v = SReport d now papers).
Proof.
  intros Hnd Hman Hempty manifest ls'.
  destruct (saveReports_invariant calls ls Hnd Hman (empty_directory _ _ Hempty))
    as [Hm Hk].
  fold manifest in Hm, Hk. fold ls' in Hm, Hk.
  split; [exact Hm | split; [| split; [| exact Hk]]].
  - unfold manifest. rewrite length_take, length_reverse, length_map. lia.
  - apply Forall_forall. intros d Hd.
    assert (Hin : d ∈ map (fun c => c.1.1) calls)
      by (apply elem_of_reverse; eapply elem_of_take_inv; exact Hd).
    apply list_elem_of_fmap in Hin as ([[d' now] papers] & -> & Hc). simpl in *.
    exists (SReport d' now papers). apply Hk.
    + apply getReportPath_in_dir.
    + intros H. apply getReportPath_manifest in H. subst d'.
      apply Hman. apply list_elem_of_fmap. now exists ("manifest", now, papers).
    + now exists d', now, papers.
Qed.

Lemma C1_retention_bound_witness :
  getManifest (saveReports nine_commits store_without_reports)
  = Some ["2024-01-09"; "2024-01-08"; "2024-01-07"; "2024-01-06"; "2024-01-05";
          "2024-01-04"; "2024-01-03"]
  /\ getItem (getReportPath "2024-01-02") (saveReports nine_commits store_without_reports)
     = None.
Proof.
  assert (H1 : NoDup (map (fun c => c.1.1) nine_commits))
    by (apply (bool_decide_unpack _); vm_compute; exact I).
  assert (H2 : "manifest" ∉ map (fun c => c.1.1) nine_commits)
    by (apply (bool_decide_unpack _); vm_compute; exact I).
  destruct (C1_retention_bound nine_commits store_without_reports H1 H2 eq_refl)
    as (Hm & _ & _ & Hk).
  split; [exact Hm |].
  destruct (getItem (getReportPath "2024-01-02")
              (saveReports nine_commits store_without_reports)) as [v|] eqn:E;
    [| reflexivity].
  apply Hk in E; [| reflexivity | discriminate].
  destruct E as (d & now & papers & _ & Hin & Heq & _).
  apply getReportPath_inj in Heq. subst d. exfalso.
  revert Hin. apply (bool_decide_unpack _). vm_compute. exact I.
Defined.

(* ===================================================================== *)
(** * The fallback path: anchor, window and walk                          *)
(* ===================================================================== *)

Section FallbackFacts.

Variable query_recent : nat -> option (list ArxivPaper).
Variable Date_parse : string -> Date.
Variable LocalTZA : Z -> Z.

(** With an anchor, the walk accepts the records before the first one that
    is too old, reports whether there is one, and keeps the anchor. *)
Lemma walk_anchored (anchor : Date) (window : Q) (papers : list ArxivPaper) :
  walk Date_parse (Some anchor) window papers
  = (accepted_prefix (too_old Date_parse anchor window) papers,
     existsb (too_old Date_parse anchor window) papers,
     Some anchor).
Proof.
  induction papers as [|paper rest IH]; [reflexivity |].
  cbn [walk accepted_prefix existsb].
  change (exceeds (diffDays anchor (Date_parse (published paper))) window)
    with (too_old Date_parse anchor window paper).
  destruct (too_old Date_parse anchor window paper); [reflexivity |]. now rewrite IH.
Qed.

Lemma adaptWindow_anchored (st : FallbackState) (papers : list ArxivPaper) (anchor : Date) :
  newestPaperDate st = Some anchor ->
  adaptWindow Date_parse LocalTZA st papers = st.
Proof. intros H. unfold adaptWindow. now rewrite H. Qed.

Lemma page_step_anchored (st : FallbackState) (papers : list ArxivPaper) (anchor : Date) :
  newestPaperDate st = Some anchor ->
  page_step Date_parse LocalTZA st papers
  = ({| allPapers := allPapers st
                     ++ accepted_prefix (too_old Date_parse anchor (timeWindowDays st)) papers;
        newestPaperDate := Some anchor;
        timeWindowDays := timeWindowDays st;
        requested := requested st |},
     existsb (too_old Date_parse anchor (timeWindowDays st)) papers).
Proof.
  intros H. unfold page_step. rewrite (adaptWindow_anchored st papers anchor H).
  rewrite H, walk_anchored. reflexivity.
Qed.

(** Once set, the anchor and the window stay as they are. *)
Lemma fallback_loop_anchored (starts : list nat) (st : FallbackState) (anchor : Date) :
  newestPaperDate st = Some anchor ->
  newestPaperDate (fallback_loop query_recent Date_parse LocalTZA starts st) = Some anchor /\
  timeWindowDays (fallback_loop query_recent Date_parse LocalTZA starts st)
  = timeWindowDays st.
Proof.
  revert st. induction starts as [|start later IH]; intros st H; [now split |].
  cbn [fallback_loop].
  destruct (query_recent start) as [[|paper rest]|].
  - now split.
  - rewrite (page_step_anchored (request start st) (paper :: rest) anchor H).
    destruct (existsb _ _); [now split |].
    match goal with
    | |- context [fallback_loop _ _ _ later ?s] =>
        destruct (IH s eq_refl) as [Ha Hw]
    end.
    split; [exact Ha | exact Hw].
  - apply (IH (request start st)). exact H.
Qed.

(** The page on which the anchor is set. *)
Lemma page_step_first (st : FallbackState) (paper0 : ArxivPaper) (rest : list ArxivPaper) :
  newestPaperDate st = None ->
  let anchor := Date_parse (published paper0) in
  let window := match getDay LocalTZA anchor with
                | Some 1%Z => 4.0%Q
                | _ => 1.2%Q
                end in
  page_step Date_parse LocalTZA st (paper0 :: rest)
  = ({| allPapers := allPapers st
                     ++ accepted_prefix (too_old Date_parse anchor window) (paper0 :: rest);
        newestPaperDate := Some anchor;
        timeWindowDays := window;
        requested := requested st |},
     existsb (too_old Date_parse anchor window) (paper0 :: rest)).
Proof.
  intros H anchor window. unfold page_step, adaptWindow. rewrite H.
  cbn [newestPaperDate timeWindowDays allPapers requested].
  fold anchor. fold window. now rewrite walk_anchored.
Qed.

Lemma window_cases (dayOfWeek : option Z) :
  (dayOfWeek = Some 1%Z ->
   match dayOfWeek with Some 1%Z => 4.0%Q | _ => 1.2%Q end = 4.0%Q) /\
  (dayOfWeek <> Some 1%Z ->
   match dayOfWeek with Some 1%Z => 4.0%Q | _ => 1.2%Q end = 1.2%Q).
Proof.
  destruct dayOfWeek as [[|[d|d|]|d]|]; split; intros H;
    try reflexivity; try discriminate; congruence.
Qed.

(** C3. In the fallback path the anchor is the timestamp of the first
    record of the first page that is answered, when that page is not empty.
    If its day of the week is 1, the second day of a week that starts with
    Sunday, the acceptance window the run ends with is 4.0 days; for every
    other day of the week, and for a timestamp that does not parse, it is
    1.2 days. *)
Theorem C3_window_adaptivity (starts : list nat) (paper0 : ArxivPaper)
    (rest : list ArxivPaper) :
  first_page query_recent starts = Some (paper0 :: rest) ->
  let anchor := Date_parse (published paper0) in
  let st := fallback_loop query_recent Date_parse LocalTZA starts fallback_init in
  newestPaperDate st = Some anchor /\
  (getDay LocalTZA anchor = Some 1%Z -> timeWindowDays st = 4.0%Q) /\
  (getDay LocalTZA anchor <> Some 1%Z -> timeWindowDays st = 1.2%Q).
Proof.
  intros Hfirst anchor st. subst st.
  assert (Hinit : newestPaperDate fallback_init = None) by reflexivity.
  revert Hfirst Hinit. generalize fallback_init as st.
  induction starts as [|start later IH]; intros st Hfirst Hnone; [discriminate |].
  cbn [first_page] in Hfirst. cbn [fallback_loop].
  destruct (query_recent start) as [papers|].
  - injection Hfirst as ->.
    rewrite (page_step_first (request start st) paper0 rest Hnone). fold anchor.
    destruct (existsb _ _).
    + split; [reflexivity | apply window_cases].
    + match goal with
      | |- context [fallback_loop _ _ _ later ?s] =>
          destruct (fallback_loop_anchored later s anchor eq_refl) as [Ha Hw]
      end.
      split; [exact Ha |]. rewrite Hw. apply window_cases.
  - apply IH; [exact Hfirst | exact Hnone].
Qed.

Lemma page_step_spec (st : FallbackState) (paper : ArxivPaper) (rest : list ArxivPaper) :
  let anchor := anchor_for Date_parse st paper in
  let window := timeWindowDays (adaptWindow Date_parse LocalTZA st (paper :: rest)) in
  page_step Date_parse LocalTZA st (paper :: rest)
  = ({| allPapers := allPapers st
                     ++ accepted_prefix (too_old Date_parse anchor window) (paper :: rest);
        newestPaperDate := Some anchor;
        timeWindowDays := window;
        requested := requested st |},
     existsb (too_old Date_parse anchor window) (paper :: rest)).
Proof.
  intros anchor window. subst anchor window. unfold anchor_for.
  destruct (newestPaperDate st) as [a|] eqn:E.
  - rewrite (adaptWindow_anchored st (paper :: rest) a E).
    apply (page_step_anchored st (paper :: rest) a E).
  - rewrite (page_step_first st paper rest E).
    unfold adaptWindow. rewrite E. reflexivity.
Qed.

Lemma exceeds_spec (d : option Q) (window : Q) :
  exceeds d window = true <-> exists q, d = Some q /\ ~ (q <= window)%Q.
Proof.
  destruct d as [q|]; simpl.
  - rewrite negb_true_iff. split.
    + intros H. exists q. split; [reflexivity |]. intros Hle.
      apply Qle_bool_iff in Hle. congruence.
    + intros (q' & [= <-] & Hn). destruct (Qle_bool q window) eqn:E; [| reflexivity].
      exfalso. apply Hn. now apply Qle_bool_iff.
  - split; [discriminate | intros (q & H & _); discriminate].
Qed.

(** C8 (as the code has it). On a page that is answered and not empty, the
    records are walked in the order returned and accepted up to, and not
    including, the first one whose elapsed days exceed the window. A record
    exceeds the window exactly when its elapsed days are defined (its
    timestamp and the anchor both parse) and greater than the window; a
    record whose elapsed days are undefined never exceeds it. When some
    record exceeds the window the loop ends with this page, the last one
    requested; otherwise it goes on to the next offset. *)
Theorem C8_acceptance_walk (start : nat) (later : list nat) (st : FallbackState)
    (paper : ArxivPaper) (rest : list ArxivPaper) :
  query_recent start = Some (paper :: rest) ->
  let papers := paper :: rest in
  let anchor := anchor_for Date_parse st paper in
  let window :=
    timeWindowDays (adaptWindow Date_parse LocalTZA (request start st) papers) in
  let st' := fst (page_step Date_parse LocalTZA (request start st) papers) in
  allPapers st' = allPapers st ++ accepted_prefix (too_old Date_parse anchor window) papers /\
  (forall p, too_old Date_parse anchor window p = true <->
     exists q, diffDays anchor (Date_parse (published p)) = Some q /\ ~ (q <= window)%Q) /\
  (existsb (too_old Date_parse anchor window) papers = true ->
     fallback_loop query_recent Date_parse LocalTZA (start :: later) st = st' /\
     requested st' = requested st ++ [start]) /\
  (existsb (too_old Date_parse anchor window) papers = false ->
     fallback_loop query_recent Date_parse LocalTZA (start :: later) st
     = fallback_loop query_recent Date_parse LocalTZA later st').
Proof.
  intros Hpage papers anchor window st'.
  pose proof (page_step_spec (request start st) paper rest) as Hstep.
  cbv zeta in Hstep. fold papers in Hstep.
  change (anchor_for Date_parse (request start st) paper) with anchor in Hstep.
  fold window in Hstep.
  assert (Hst' : st' = fst (page_step Date_parse LocalTZA (request start st) papers))
    by reflexivity.
  rewrite Hstep in Hst'. cbn [fst] in Hst'.
  split; [now rewrite Hst' | split; [| split]].
  - intros p. unfold too_old. apply exceeds_spec.
  - intros Hstop. cbn [fallback_loop]. rewrite Hpage. fold papers.
    rewrite Hstep, Hstop. split; [now rewrite Hst' | now rewrite Hst'].
  - intros Hgo. cbn [fallback_loop]. rewrite Hpage. fold papers.
    rewrite Hstep, Hgo. now rewrite Hst'.
Qed.

End FallbackFacts.

Lemma C3_window_adaptivity_witness :
  timeWindowDays (fallback_loop monday_feed sample_Date_parse sample_LocalTZA
                    page_starts fallback_init) = 4.0%Q /\
  timeWindowDays (fallback_loop sample_feed sample_Date_parse sample_LocalTZA
                    page_starts fallback_init) = 1.2%Q.
Proof.
  split.
  - destruct (C3_window_adaptivity monday_feed sample_Date_parse sample_LocalTZA
                page_starts (sample_paper "m" "2024-01-01T18:00:00Z") [friday_paper]
                eq_refl) as (_ & H & _).
    apply H. reflexivity.
  - destruct (C3_window_adaptivity sample_feed sample_Date_parse sample_LocalTZA
                page_starts tuesday_paper
                [undated_paper; monday_paper; friday_paper; late_paper]
                eq_refl) as (_ & _ & H).
    apply H. discriminate.
Defined.

Lemma C8_acceptance_walk_witness :
  let st := fallback_loop sample_feed sample_Date_parse sample_LocalTZA
              page_starts fallback_init in
  allPapers st = [tuesday_paper; undated_paper; monday_paper] /\ requested st = [0].
Proof.
  destruct (C8_acceptance_walk sample_feed sample_Date_parse sample_LocalTZA
              0 (tail page_starts) fallback_init tuesday_paper
              [undated_paper; monday_paper; friday_paper; late_paper] eq_refl)
    as (Hacc & _ & Hstop & _).
  destruct (Hstop eq_refl) as [Hloop Hreq].
  change (0 :: tail page_starts) with page_starts in Hloop.
  cbv zeta. rewrite Hloop. split; [rewrite Hacc | rewrite Hreq]; reflexivity.
Defined.

(** The record without a publication date is accepted, although its
    elapsed days are not at most the window: they are not a number. *)
Lemma C8_undated_record_accepted :
  let st := fallback_loop sample_feed sample_Date_parse sample_LocalTZA
              page_starts fallback_init in
  undated_paper ∈ allPapers st /\
  newestPaperDate st = Some (sample_Date_parse (published tuesday_paper)) /\
  within (diffDays (sample_Date_parse (published tuesday_paper))
                   (sample_Date_parse (published undated_paper)))
         (timeWindowDays st) = false.
Proof.
  cbv zeta. split; [| split; vm_compute; reflexivity].
  replace (allPapers _) with [tuesday_paper; undated_paper; monday_paper]
    by (vm_compute; reflexivity).
  right. left.
Qed.

(* ===================================================================== *)
(** * De-duplication in the fetcher                                       *)
(* ===================================================================== *)

Lemma Set_add_NoDup (s : list string) (x : string) : NoDup s -> NoDup (Set_add s x).
Proof.
  intros H. unfold Set_add. case_bool_decide as Hx; [exact H |].
  apply NoDup_app. split; [exact H | split; [| apply NoDup_singleton]].
  intros y Hy Hy'. apply list_elem_of_singleton in Hy'. now subst.
Qed.

Lemma fold_Set_add_NoDup (xs acc : list string) :
  NoDup acc -> NoDup (fold_left Set_add xs acc).
Proof.
  revert acc. induction xs as [|x xs IH]; intros acc H; [exact H |].
  simpl. apply IH. now apply Set_add_NoDup.
Qed.

Lemma Set_from_NoDup (xs : list string) : NoDup (Set_from xs).
Proof. apply fold_Set_add_NoDup. constructor. Qed.

Lemma fold_Set_add_elem (xs acc : list string) (x : string) :
  x ∈ fold_left Set_add xs acc <-> x ∈ acc \/ x ∈ xs.
Proof.
  revert acc. induction xs as [|y xs IH]; intros acc; simpl.
  - split; [now left | intros [H|H]; [exact H | inversion H]].
  - rewrite IH. unfold Set_add. case_bool_decide as Hy.
    + split; [intros [H|H]; [now left | right; now right] |].
      intros [H|H]; [now left |]. inversion H; subst; [now left | now right].
    + rewrite elem_of_app, list_elem_of_singleton.
      split; [intros [[H| ->]|H]; [now left | right; left | right; now right] |].
      intros [H|H]; [left; now left |]. inversion H; subst; [left; now right | now right].
Qed.

(** [new Set] loses no element. *)
Lemma Set_from_elem (xs : list string) (x : string) : x ∈ Set_from xs <-> x ∈ xs.
Proof.
  unfold Set_from. rewrite fold_Set_add_elem.
  split; [intros [H|H]; [inversion H | exact H] | now right].
Qed.

Lemma Map_set_keys {V} (k : string) (v : V) (m : list (string * V)) :
  map fst (Map_set k v m) = if decide (k ∈ map fst m) then map fst m else map fst m ++ [k].
Proof.
  induction m as [|[k' v'] m IH]; cbn [Map_set map fst].
  - case_decide as H; [inversion H | reflexivity].
  - destruct (String.eqb_spec k' k) as [->|Hne]; cbn [map fst].
    + rewrite decide_True by left. reflexivity.
    + rewrite IH. destruct (decide (k ∈ map fst m)) as [Hin|Hout].
      * rewrite decide_True by now right. reflexivity.
      * rewrite decide_False; [reflexivity |].
        intros H. inversion H; subst; [congruence | contradiction].
Qed.

Lemma Map_set_NoDup {V} (k : string) (v : V) (m : list (string * V)) :
  NoDup (map fst m) -> NoDup (map fst (Map_set k v m)).
Proof.
  intros H. rewrite Map_set_keys. case_decide as Hk; [exact H |].
  apply NoDup_app. split; [exact H | split; [| apply NoDup_singleton]].
  intros y Hy Hy'. apply list_elem_of_singleton in Hy'. now subst.
Qed.

Lemma Map_set_Forall {V} (P : string * V -> Prop) (k : string) (v : V)
    (m : list (string * V)) :
  P (k, v) -> Forall P m -> Forall P (Map_set k v m).
Proof.
  intros Hkv. induction 1 as [|[k' v'] m Hx Hm IH]; simpl.
  - now repeat constructor.
  - destruct (String.eqb_spec k' k) as [->|Hne]; now constructor.
Qed.

(** The values of a [Map] built from [[item.id, item]] pairs carry pairwise
    distinct identifiers. *)
Lemma Map_from_ids (items acc : list (string * ArxivPaper)) :
  NoDup (map fst acc) -> Forall (fun e => id e.2 = e.1) acc ->
  Forall (fun e => id e.2 = e.1) items ->
  let m := fold_left (fun m e => Map_set e.1 e.2 m) items acc in
  NoDup (map fst m) /\ Forall (fun e => id e.2 = e.1) m.
Proof.
  revert acc. induction items as [|[k v] items IH]; intros acc Hnd Hacc Hitems; simpl.
  - now split.
  - inversion Hitems as [|? ? Hkv Hrest]; subst. apply IH; [| | exact Hrest].
    + now apply Map_set_NoDup.
    + now apply Map_set_Forall.
Qed.

Lemma Map_values_ids (m : list (string * ArxivPaper)) :
  Forall (fun e => id e.2 = e.1) m -> map id (Map_values m) = map fst m.
Proof.
  unfold Map_values. induction 1 as [|[k v] m Hx _ IH]; simpl; [reflexivity |].
  simpl in Hx. now rewrite Hx, IH.
Qed.

Section FetchFacts.

Variable scrape : string -> option (list string).
Variable query_by_id : list string -> option (list ArxivPaper).
Variable query_recent : nat -> option (list ArxivPaper).
Variable Date_parse : string -> Date.
Variable LocalTZA : Z -> Z.

Lemma fetchPapersFallback_NoDup :
  NoDup (map id (fetchPapersFallback query_recent Date_parse LocalTZA)).
Proof.
  unfold fetchPapersFallback, Map_from.
  set (items := map (fun item => (id item, item)) _).
  destruct (Map_from_ids items []) as [Hnd Hid].
  - constructor.
  - constructor.
  - subst items. apply Forall_forall. intros e He.
    apply list_elem_of_fmap in He as (p & -> & _). reflexivity.
  - cbv zeta in Hnd, Hid. now rewrite Map_values_ids.
Qed.

(** What the chunk loop returns from index [i] on: the records gathered so
    far, then records whose identifiers answer, at most once each and in
    any order within an answer, identifiers of the rest of the list. *)
Lemma fetch_chunks_ids (rid : string -> string) (uniqueIds : list string) (i : nat)
    (chunkedPapers : list ArxivPaper) :
  (forall chunk papers, query_by_id chunk = Some papers ->
                        map id papers ⊆+ map rid chunk) ->
  exists sub,
    sub ⊆+ map rid (drop i uniqueIds) /\
    map id (fetch_chunks query_by_id uniqueIds i chunkedPapers)
    = map id chunkedPapers ++ sub.
Proof.
  intros Hsrc. funelim (fetch_chunks query_by_id uniqueIds i chunkedPapers).
  - assert (Hdrop : drop i uniqueIds
                    = slice i (i + chunkSize) uniqueIds ++ drop (i + chunkSize) uniqueIds).
    { unfold slice. replace (i + chunkSize - i) with chunkSize by lia.
      rewrite <- (drop_drop uniqueIds). now rewrite take_drop. }
    destruct (query_by_id (slice i (i + chunkSize) uniqueIds)) as [papers|] eqn:E.
    + destruct (H papers rid Hsrc) as (sub & Hsub & Hids).
      exists (map id papers ++ sub). split.
      * rewrite Hdrop, map_app. apply submseteq_app; [now apply Hsrc | exact Hsub].
      * rewrite Hids, map_app. now rewrite <- app_assoc.
    + destruct (H0 rid Hsrc) as (sub & Hsub & Hids).
      exists sub. split; [| exact Hids].
      rewrite Hdrop, map_app. now apply submseteq_inserts_l.
  - exists []. split; [apply submseteq_nil_l | now rewrite app_nil_r].
Qed.

Lemma submseteq_NoDup {A} (l k : list A) : NoDup k -> l ⊆+ k -> NoDup l.
Proof.
  intros Hk Hl. apply submseteq_sublist_r in Hl as (l' & Hperm & Hsub).
  rewrite Hperm. now apply (sublist_NoDup l' k).
Qed.

(** C7 (as the code has it). The fallback path returns each identifier at
    most once, whatever the feed returns. The primary path asks the
    query-by-identifier source for pairwise distinct identifiers and passes
    its records on as they come; [fetchLatestPapers] returns each identifier
    at most once when that source answers every requested identifier with
    at most one record, identified by it ([rid] injective), in whatever
    order the records of an answer come. *)
Theorem C7_identifiers_at_most_once (rid : string -> string) :
  NoDup (map id (fetchPapersFallback query_recent Date_parse LocalTZA)) /\
  NoDup (Set_from (concat (map (scrapeIds scrape) listUrls))) /\
  (Inj (=) (=) rid ->
   (forall chunk papers, query_by_id chunk = Some papers ->
                         map id papers ⊆+ map rid chunk) ->
   NoDup (map id (fetchLatestPapers scrape query_by_id query_recent Date_parse LocalTZA))).
Proof.
  split; [apply fetchPapersFallback_NoDup | split; [apply Set_from_NoDup |]].
  intros Hinj Hsrc. unfold fetchLatestPapers.
  destruct (length _ =? 0); [apply fetchPapersFallback_NoDup |].
  set (uniqueIds := Set_from _).
  destruct (fetch_chunks_ids rid uniqueIds 0 [] Hsrc) as (sub & Hsub & ->).
  simpl. eapply submseteq_NoDup; [| exact Hsub].
  rewrite drop_0. apply (NoDup_fmap_2 rid). apply Set_from_NoDup.
Qed.

End FetchFacts.

Lemma C7_identifiers_at_most_once_witness :
  NoDup (map id (fetchLatestPapers sample_scrape reversing_source no_feed
                   sample_Date_parse sample_LocalTZA)).
Proof.
  destruct (C7_identifiers_at_most_once sample_scrape reversing_source no_feed
              sample_Date_parse sample_LocalTZA abs_url) as (_ & _ & H).
  apply H.
  - unfold abs_url. apply String.app_inj.
  - intros chunk papers [= <-]. rewrite <- list_fmap_compose.
    replace (map _ (reverse chunk)) with (map abs_url (reverse chunk))
      by now apply map_ext.
    apply Permutation_submseteq. now rewrite reverse_Permutation.
Defined.

(** Both listing pages show one identifier, the source answers the request
    for it with the same record twice: the record is returned twice. *)
Lemma C7_primary_path_repeats :
  ~ NoDup (map id (fetchLatestPapers (fun _ => Some ["2401.00001"]) doubling_source
                     no_feed sample_Date_parse sample_LocalTZA)).
Proof.
  intros H.
  assert (E : map id (fetchLatestPapers (fun _ => Some ["2401.00001"]) doubling_source
                        no_feed sample_Date_parse sample_LocalTZA)
              = [abs_url "2401.00001"; abs_url "2401.00001"]) by reflexivity.
  rewrite E in H. apply NoDup_cons in H as [Hin _]. apply Hin. left.
Qed.

(* ===================================================================== *)
(** * The relevance filter                                                *)
(* ===================================================================== *)

Section FilterFacts.

Variable completion : nat -> string -> string -> prompt -> option string.
Variable cleanJsonOutput : string -> string.
Variable JSON_parse : string -> option json.

Local Abbreviation processBatch' := (processBatch completion cleanJsonOutput JSON_parse).
Local Abbreviation filter_loop' := (filter_loop completion cleanJsonOutput JSON_parse).
Local Abbreviation filterPapersWithLLM' :=
  (filterPapersWithLLM completion cleanJsonOutput JSON_parse).

(** Every exception of a batch is caught. *)
Lemma processBatch_total (apiKey modelId : string) (batch : list ArxivPaper) (i : nat) :
  exists scored, processBatch' apiKey modelId batch i = Ok scored.
Proof.
  unfold processBatch, try_catch.
  destruct (score_batch _ _ _ _ _ _ _); eexists; reflexivity.
Qed.

Lemma filter_loop_total (apiKey modelId : string) (papers : list ArxivPaper) (i : nat)
    (acc : list AnalyzedPaper) :
  exists scored, filter_loop' apiKey modelId papers i acc = Ok scored.
Proof.
  funelim (filter_loop' apiKey modelId papers i acc).
  - destruct (processBatch_total apiKey modelId (slice i (i + BATCH_SIZE) papers) i)
      as [batchResults ->].
    apply H.
  - eexists; reflexivity.
Qed.

(** Without a key the request is never sent: the batch fails at once and
    yields nothing. *)
Lemma processBatch_no_key (modelId : string) (batch : list ArxivPaper) (i : nat) :
  score_batch completion cleanJsonOutput JSON_parse "" modelId batch i = Throw MissingApiKey
  /\ processBatch' "" modelId batch i = Ok [].
Proof. split; reflexivity. Qed.

Lemma filter_loop_no_key (apiKey modelId : string) (papers : list ArxivPaper) (i : nat)
    (acc : list AnalyzedPaper) :
  apiKey = "" -> filter_loop' apiKey modelId papers i acc = Ok acc.
Proof.
  funelim (filter_loop' apiKey modelId papers i acc); intros ->; [| reflexivity].
  rewrite (proj2 (processBatch_no_key modelId _ i)). cbn [mbind result_bind].
  rewrite (H [] eq_refl). now rewrite app_nil_r.
Qed.

Lemma batches_from_step (papers : list ArxivPaper) (i : nat) :
  i < length papers ->
  batches_from papers i
  = (i, slice i (i + BATCH_SIZE) papers) :: batches_from papers (i + BATCH_SIZE).
Proof.
  intros Hi. rewrite batches_from_equation_1.
  destruct (decide (i < length papers)); [reflexivity | contradiction].
Qed.

Lemma batches_from_end (papers : list ArxivPaper) (i : nat) :
  ~ i < length papers -> batches_from papers i = [].
Proof.
  intros Hi. rewrite batches_from_equation_1.
  destruct (decide (i < length papers)); [contradiction | reflexivity].
Qed.

(** The batches are consecutive pieces of the input: together, in order,
    they make up the papers from index [i] on. *)
Lemma batches_from_cover (papers : list ArxivPaper) (i : nat) :
  concat (map snd (batches_from papers i)) = drop i papers.
Proof.
  funelim (batches_from papers i).
  - cbn [map snd concat]. rewrite H. unfold slice.
    replace (i + BATCH_SIZE - i) with BATCH_SIZE by lia.
    rewrite <- (drop_drop papers). apply take_drop.
  - simpl. symmetry. apply drop_ge. lia.
Qed.

Lemma processBatch_records (apiKey modelId : string) (batch : list ArxivPaper) (i : nat) :
  processBatch' apiKey modelId batch i
  = Ok (batch_records completion cleanJsonOutput JSON_parse apiKey modelId (i, batch)).
Proof.
  unfold processBatch, batch_records, try_catch. cbn [fst snd].
  now destruct (score_batch _ _ _ _ _ _ _).
Qed.

(** The loop adds to what it has gathered the records of every remaining
    batch, one batch after the other, whether or not a batch failed. *)
Lemma filter_loop_concat (apiKey modelId : string) (papers : list ArxivPaper) (i : nat)
    (acc : list AnalyzedPaper) :
  filter_loop' apiKey modelId papers i acc
  = Ok (acc ++ concat (map (batch_records completion cleanJsonOutput JSON_parse
                              apiKey modelId)
                           (batches_from papers i))).
Proof.
  funelim (filter_loop' apiKey modelId papers i acc).
  - rewrite processBatch_records. cbn [mbind result_bind].
    rewrite H, (batches_from_step papers i l). cbn [map concat].
    now rewrite <- app_assoc.
  - rewrite (batches_from_end papers i n). simpl. now rewrite app_nil_r.
Qed.

(** C4 (as the code has it). [filterPapersWithLLM] never fails as a whole,
    and every error is contained in the batch that raised it: the filter
    cuts its input into consecutive batches that together make up the
    input, and its result is the concatenation, batch after batch, of the
    records each batch yields, a batch whose scoring raises (the missing
    key included) contributing no record while the loop goes on with the
    next batch. With an empty key every batch raises the missing-key error
    before any request is sent, so the filter returns the empty
    sequence. *)
Theorem C4_missing_key_is_contained (papers : list ArxivPaper) (apiKey modelId : string) :
  filterPapersWithLLM' papers apiKey modelId
  = Ok (concat (map (batch_records completion cleanJsonOutput JSON_parse apiKey modelId)
                    (batches_from papers 0))) /\
  concat (map snd (batches_from papers 0)) = papers /\
  (forall b, is_Throw (score_batch completion cleanJsonOutput JSON_parse
                         apiKey modelId b.2 b.1) ->
             batch_records completion cleanJsonOutput JSON_parse apiKey modelId b = []) /\
  (forall batch i,
     score_batch completion cleanJsonOutput JSON_parse "" modelId batch i
     = Throw MissingApiKey) /\
  filterPapersWithLLM' papers "" modelId = Ok [].
Proof.
  split; [| split; [| split; [| split]]].
  - unfold filterPapersWithLLM. now rewrite filter_loop_concat.
  - rewrite batches_from_cover. apply drop_0.
  - intros b Hb. unfold batch_records. now destruct (score_batch _ _ _ _ _ _ _).
  - intros batch i. apply processBatch_no_key.
  - unfold filterPapersWithLLM. now apply filter_loop_no_key.
Qed.

Lemma reconcile_some (batch : list ArxivPaper) (res : json) (p : AnalyzedPaper) :
  reconcile batch res = Ok (Some p) ->
  base p ∈ batch /\
  (exists res_id, get_prop res "id" = Ok res_id /\ id_is res_id (base p) = true) /\
  innovations p = None /\ methodology p = None /\ value p = None.
Proof.
  unfold reconcile. destruct (get_prop res "id") as [res_id|e] eqn:Eid; [| discriminate].
  cbn [mbind result_bind].
  destruct (List.find (id_is res_id) batch) as [original|] eqn:F; [| discriminate].
  apply find_some in F as [Hin Hid].
  destruct res; try discriminate; cbn [get_prop mbind result_bind];
    intros [= <-]; cbn [base innovations methodology value];
    (split; [now apply list_elem_of_In | split; [now exists res_id | auto]]).
Qed.

(** A score object whose identifier no paper of the batch has maps to
    [null]. *)
Lemma reconcile_unknown (batch : list ArxivPaper) (fields : list (string * json)) :
  Forall (fun p => id_is (assoc "id" fields) p = false) batch ->
  reconcile batch (JObj fields) = Ok None.
Proof.
  intros H. unfold reconcile. cbn [get_prop mbind result_bind].
  destruct (List.find (id_is (assoc "id" fields)) batch) as [p|] eqn:F; [| reflexivity].
  apply find_some in F as [Hin Hid].
  rewrite Forall_forall in H. apply list_elem_of_In in Hin.
  rewrite (H p Hin) in Hid. discriminate.
Qed.

Lemma mapM_result_elem {A B} (f : A -> result B) (xs : list A) (ys : list B) (y : B) :
  mapM f xs = Ok ys -> y ∈ ys -> exists x, x ∈ xs /\ f x = Ok y.
Proof.
  revert ys. induction xs as [|x xs IH]; intros ys; cbn [mapM].
  - intros [= <-] Hy. inversion Hy.
  - destruct (f x) as [b|e] eqn:Ex; cbn [mbind result_bind]; [| discriminate].
    destruct (mapM f xs) as [bs|e]; cbn [mbind result_bind mret result_ret];
      [| discriminate].
    intros [= <-] Hy. inversion Hy; subst.
    + exists x. split; [left | exact Ex].
    + destruct (IH bs eq_refl H1) as (x' & Hx' & Hfx').
      exists x'. split; [now right | exact Hfx'].
Qed.

Lemma score_batch_sound (apiKey modelId : string) (batch : list ArxivPaper) (i : nat)
    (scored : list AnalyzedPaper) :
  score_batch completion cleanJsonOutput JSON_parse apiKey modelId batch i = Ok scored ->
  Forall (fun p => base p ∈ batch /\ innovations p = None /\ methodology p = None
                   /\ value p = None) scored.
Proof.
  unfold score_batch.
  destruct (callSiliconFlow _ _ _ _ _) as [content|]; cbn [mbind result_bind];
    [| discriminate].
  destruct (parse _ _) as [parsed|]; cbn [mbind result_bind]; [| discriminate].
  destruct (get_prop parsed "papers") as [parsed_papers|]; cbn [mbind result_bind];
    [| discriminate].
  match goal with |- context [match ?r with JArr _ => _ | _ => _ end] =>
    destruct r as [| | | |items|] end;
    try (intros [= <-]; constructor).
  destruct (mapM (reconcile batch) items) as [mapped|] eqn:Em;
    cbn [mbind result_bind]; [| discriminate].
  intros [= <-]. apply Forall_forall. intros p Hp.
  unfold nonNull in Hp. apply list_elem_of_omap in Hp as (o & Ho & ->).
  destruct (mapM_result_elem _ _ _ _ Em Ho) as (res & _ & Hres).
  apply reconcile_some in Hres as (Hin & _ & Hrest). now split.
Qed.

Lemma processBatch_sound (apiKey modelId : string) (batch : list ArxivPaper) (i : nat)
    (scored : list AnalyzedPaper) :
  processBatch' apiKey modelId batch i = Ok scored ->
  Forall (fun p => base p ∈ batch /\ innovations p = None /\ methodology p = None
                   /\ value p = None) scored.
Proof.
  unfold processBatch, try_catch.
  destruct (score_batch _ _ _ _ _ _ _) as [l|] eqn:E.
  - intros [= <-]. now apply (score_batch_sound apiKey modelId batch i).
  - intros [= <-]. constructor.
Qed.

Lemma elem_of_slice {A} (a b : nat) (xs : list A) (x : A) : x ∈ slice a b xs -> x ∈ xs.
Proof.
  unfold slice. intros H. apply elem_of_take_inv in H.
  eapply elem_of_sublist; [exact H | apply sublist_drop].
Qed.

Lemma filter_loop_sound (apiKey modelId : string) (papers : list ArxivPaper) (i : nat)
    (acc scored : list AnalyzedPaper) :
  Forall (fun p => base p ∈ papers /\ innovations p = None /\ methodology p = None
                   /\ value p = None) acc ->
  filter_loop' apiKey modelId papers i acc = Ok scored ->
  Forall (fun p => base p ∈ papers /\ innovations p = None /\ methodology p = None
                   /\ value p = None) scored.
Proof.
  funelim (filter_loop' apiKey modelId papers i acc); intros Hacc.
  - destruct (processBatch' apiKey modelId (slice i (i + BATCH_SIZE) papers) i)
      as [batchResults|] eqn:E; cbn [mbind result_bind]; [| discriminate].
    apply H. apply Forall_app. split; [exact Hacc |].
    eapply Forall_impl; [apply (processBatch_sound _ _ _ _ _ E) |].
    intros p (Hin & Hrest). split; [| exact Hrest]. eapply elem_of_slice, Hin.
  - now intros [= <-].
Qed.


End FilterFacts.

(** With an empty key the filter returns, with no record: it does not
    fail. *)
Lemma C4_filter_returns_without_key :
  filterPapersWithLLM sample_completion sample_cleanJsonOutput sample_JSON_parse
    [tuesday_paper; undated_paper] "" "Qwen/QwQ-32B" = Ok [] /\
  ~ is_Throw (filterPapersWithLLM sample_completion sample_cleanJsonOutput
                sample_JSON_parse [tuesday_paper; undated_paper] "" "Qwen/QwQ-32B").
Proof.
  unfold filterPapersWithLLM.
  rewrite (filter_loop_no_key sample_completion sample_cleanJsonOutput sample_JSON_parse
             "" "Qwen/QwQ-32B" [tuesday_paper; undated_paper] 0 [] eq_refl).
  split; [reflexivity | intros []].
Qed.

Lemma C4_missing_key_is_contained_witness :
  batch_records sample_completion sample_cleanJsonOutput sample_JSON_parse
    "" "Qwen/QwQ-32B" (0, [tuesday_paper; undated_paper]) = [].
Proof.
  destruct (C4_missing_key_is_contained sample_completion sample_cleanJsonOutput
              sample_JSON_parse [tuesday_paper; undated_paper] "" "Qwen/QwQ-32B")
    as (_ & _ & H & _).
  apply H. exact I.
Defined.


(* ===================================================================== *)
(** * The deep analyzer                                                   *)
(* ===================================================================== *)

Section AnalyzerFacts.

Variable completion : nat -> string -> string -> prompt -> option string.
Variable cleanJsonOutput : string -> string.
Variable JSON_parse : string -> option json.

Local Abbreviation analyze_paper' := (analyze_paper completion cleanJsonOutput JSON_parse).
Local Abbreviation analyzeSingle' := (analyzeSingle completion cleanJsonOutput JSON_parse).
Local Abbreviation analyze_from' := (analyze_from completion cleanJsonOutput JSON_parse).
Local Abbreviation deepAnalyzePapersWithLLM' :=
  (deepAnalyzePapersWithLLM completion cleanJsonOutput JSON_parse).

(** A successful analysis only writes the three analysis fields. *)
Lemma analyze_paper_base (apiKey modelId : string) (n : nat) (paper analyzed : AnalyzedPaper) :
  analyze_paper' apiKey modelId n paper = Ok analyzed -> base analyzed = base paper.
Proof.
  unfold analyze_paper.
  destruct (callSiliconFlow _ _ _ _ _) as [content|]; cbn [mbind result_bind];
    [| discriminate].
  destruct (parse _ _) as [analysis|]; cbn [mbind result_bind]; [| discriminate].
  destruct (get_prop analysis "innovations"); cbn [mbind result_bind]; [| discriminate].
  destruct (get_prop analysis "methodology"); cbn [mbind result_bind]; [| discriminate].
  destruct (get_prop analysis "value"); cbn [mbind result_bind]; [| discriminate].
  now intros [= <-].
Qed.

(** [analyzeSingle] always returns a record for its paper; after a failure
    the record is the paper itself. *)
Lemma analyzeSingle_spec (apiKey modelId : string) (n : nat) (paper : AnalyzedPaper) :
  exists analyzed,
    analyzeSingle' apiKey modelId n paper = Ok analyzed /\
    base analyzed = base paper /\
    (is_Throw (analyze_paper' apiKey modelId n paper) -> analyzed = paper).
Proof.
  unfold analyzeSingle, try_catch.
  destruct (analyze_paper' apiKey modelId n paper) as [analyzed|e] eqn:E.
  - exists analyzed. split; [reflexivity | split; [| intros []]].
    now apply (analyze_paper_base apiKey modelId n).
  - exists paper. now repeat split.
Qed.

(** The results of [Promise.all], position by position. *)
Lemma analyze_from_spec (apiKey modelId : string) (papers : list AnalyzedPaper) (n : nat) :
  exists out,
    analyze_from' apiKey modelId n papers = Ok out /\
    Forall2 (fun paper analyzed => base analyzed = base paper) papers out /\
    forall i paper, papers !! i = Some paper ->
      is_Throw (analyze_paper' apiKey modelId (n + i) paper) -> out !! i = Some paper.
Proof.
  revert n. induction papers as [|paper rest IH]; intros n.
  - exists []. split; [reflexivity | split; [constructor |]].
    intros i p H. now rewrite lookup_nil in H.
  - destruct (analyzeSingle_spec apiKey modelId n paper) as (analyzed & E & Hb & Hfail).
    destruct (IH (S n)) as (others & Eo & Hbs & Hfails).
    exists (analyzed :: others). cbn [analyze_from]. rewrite E. cbn [mbind result_bind].
    rewrite Eo. cbn [mbind result_bind]. split; [reflexivity | split].
    + now constructor.
    + intros [|i] p Hp Hthrow; simpl in Hp.
      * injection Hp as <-. rewrite Nat.add_0_r in Hthrow. simpl. f_equal. now apply Hfail.
      * simpl. apply Hfails; [exact Hp |]. now rewrite Nat.add_succ_comm.
Qed.

Lemma Forall2_base_ids (papers out : list AnalyzedPaper) :
  Forall2 (fun paper analyzed => base analyzed = base paper) papers out ->
  map (fun p => id (base p)) out = map (fun p => id (base p)) papers.
Proof. induction 1 as [|p o ps os H _ IH]; simpl; [reflexivity | now rewrite H, IH]. Qed.

(** C9. The deep analyzer preserves the order of its input: it returns a
    sequence whose record at every position carries the identifier of the
    input record at that position. *)
Theorem C9_analyzer_preserves_order (papers : list AnalyzedPaper) (apiKey modelId : string) :
  exists out,
    deepAnalyzePapersWithLLM' papers apiKey modelId = Ok out /\
    forall i, (fun p => id (base p)) <$> out !! i = (fun p => id (base p)) <$> papers !! i.
Proof.
  destruct (analyze_from_spec apiKey modelId papers 0) as (out & E & Hb & _).
  exists out. split; [exact E |]. intros i.
  rewrite <- !list_lookup_fmap. f_equal. now apply Forall2_base_ids.
Qed.

(** C6 (as the code has it). The deep analyzer returns as many records as
    it is given, and every identifier occurs in the output as often as in
    the input: exactly once when the input identifiers are pairwise
    distinct. The record of a paper whose analysis failed is the input
    record, unmodified; its three analysis fields are unset when they were
    unset in the input. *)
Theorem C6_analyzer_preserves_records (papers : list AnalyzedPaper) (apiKey modelId : string) :
  exists out,
    deepAnalyzePapersWithLLM' papers apiKey modelId = Ok out /\
    length out = length papers /\
    (forall x, count_occ string_dec (map (fun p => id (base p)) out) x
               = count_occ string_dec (map (fun p => id (base p)) papers) x) /\
    (NoDup (map (fun p => id (base p)) papers) ->
     forall paper, paper ∈ papers ->
       count_occ string_dec (map (fun p => id (base p)) out) (id (base paper)) = 1) /\
    (forall i paper, papers !! i = Some paper ->
       is_Throw (analyze_paper' apiKey modelId i paper) ->
       out !! i = Some paper /\
       (innovations paper = None /\ methodology paper = None /\ value paper = None ->
        exists analyzed, out !! i = Some analyzed /\ innovations analyzed = None /\
                         methodology analyzed = None /\ value analyzed = None)).
Proof.
  destruct (analyze_from_spec apiKey modelId papers 0) as (out & E & Hb & Hfail).
  pose proof (Forall2_base_ids papers out Hb) as Hids.
  exists out. split; [exact E | split; [| split; [| split]]].
  - symmetry. eapply Forall2_length, Hb.
  - intros x. now rewrite Hids.
  - intros Hnd paper Hin. rewrite Hids.
    apply NoDup_count_occ'; [now apply NoDup_ListNoDup |].
    apply list_elem_of_In, list_elem_of_fmap. now exists paper.
  - intros i paper Hi Hthrow. specialize (Hfail i paper Hi Hthrow).
    split; [exact Hfail |]. intros Hunset. now exists paper.
Qed.

End AnalyzerFacts.

Lemma C6_analyzer_preserves_records_witness :
  exists out,
    deepAnalyzePapersWithLLM sample_completion sample_cleanJsonOutput sample_JSON_parse
      [scored tuesday_paper; scored undated_paper] "sk-demo" "Qwen/QwQ-32B" = Ok out /\
    out !! 1 = Some (scored undated_paper) /\
    count_occ string_dec (map (fun p => id (base p)) out) "a" = 1.
Proof.
  destruct (C6_analyzer_preserves_records sample_completion sample_cleanJsonOutput
              sample_JSON_parse [scored tuesday_paper; scored undated_paper]
              "sk-demo" "Qwen/QwQ-32B") as (out & E & _ & _ & Hnd & Hfail).
  exists out. split; [exact E | split].
  - apply (Hfail 1 (scored undated_paper)); [reflexivity | exact I].
  - assert (H : NoDup (map (fun p => id (base p))
                         [scored tuesday_paper; scored undated_paper]))
      by (apply (bool_decide_unpack _); vm_compute; exact I).
    apply (Hnd H (scored tuesday_paper)). left.
Defined.

(** The scorer names one identifier of the batch twice, so the filter
    returns two records for it; given these, the analyzer returns the
    identifier twice, not once. *)
Lemma C6_repeated_identifier :
  exists scoredTwice out,
    filterPapersWithLLM sample_completion sample_cleanJsonOutput repeating_JSON_parse
      [tuesday_paper] "sk-demo" "Qwen/QwQ-32B" = Ok scoredTwice /\
    deepAnalyzePapersWithLLM sample_completion sample_cleanJsonOutput repeating_JSON_parse
      scoredTwice "sk-demo" "Qwen/QwQ-32B" = Ok out /\
    map (fun p => id (base p)) scoredTwice = ["a"; "a"] /\
    count_occ string_dec (map (fun p => id (base p)) out) "a" = 2.
Proof.
  exists [scored tuesday_paper; scored tuesday_paper],
         [analyzed tuesday_paper; scored tuesday_paper].
  repeat split; vm_compute; reflexivity.
Qed.
